(** * lokomat_fes: the stimulation planner and the Rehastim event log

    A shallow embedding of

    - [lokomat_fes/planner/stimulation.py]: the stride-based decision engine
      ([StrideBasedStimulation]), and
    - [server/lokomat_fes/rehastim/data.py]: the stimulation event log
      ([RehastimData]) with its channel objects,

    followed by the properties of both.

    Conventions of the embedding.
    - A method that mutates [self] takes the old object and returns the new
      one next to its outcome; an exception is an outcome ([Raise]), and the
      object returned with it is the object as the exception leaves it.
    - [datetime.now()] is an argument [now] of every method that reads the
      clock.  A [datetime] is a number of microseconds (the resolution of
      Python's datetime), a [timedelta] as well.
    - A Python float is a rational number in [Q]; [total_seconds] is the
      exact quotient by 10^6.
    - [Channel] objects are mutable and may be shared between entries of the
      log, so they live in a store ([heap]) and the log holds locations. *)

From Stdlib Require Import ZArith QArith List Lia Sorted.
From stdpp Require Import base option list gmap strings.

Local Open Scope Z_scope.

(** ** Python exceptions and outcomes *)

Inductive exn : Type :=
| ValueError (msg : string)
| IndexError
| RuntimeError (msg : string)
| KeyError (key : string)
| FileNotFoundError (path : string)
| NotImplementedError (msg : string)
  (** The two below are no Python exceptions.  [BadReference] is a location
      outside the store, which no Python program can hold; [BadType] is a
      pickled value of another type than the typed fields of the embedding
      can take. *)
| BadReference
| BadType.

Inductive result (A : Type) : Type :=
| Ok (a : A)
| Raise (e : exn).

Arguments Ok {A} a.
Arguments Raise {A} e.

Definition is_ok {A} (r : result A) : bool :=
  match r with Ok _ => true | Raise _ => false end.

(** ** planner/stimulation.py *)

Module Stimulation.

Inductive Side : Type := LEFT | RIGHT.

(** The reading of [StimulationAbstract.stimulation_duration]'s result that
    its docstring gives: [None] keeps the channel as it is, a negative value
    stops it, [0] starts it until a stop, a positive value starts it for
    that many seconds. *)
Inductive Command : Type :=
| Start (duration : Z)
| Stop.

Definition command_of (x : option Z) : option Command :=
  match x with
  | None => None
  | Some d => if d <? 0 then Some Stop else Some (Start d)
  end.

Section StrideBased.

(** [Data] and [DataAnalyser.percentage_of_stride] belong to other modules
    of the package ([common.data], [planner.data_analyser]). *)
Variable Data : Type.
Variable percentage_of_stride : Q -> Data -> Side -> Q.

Record StrideBasedStimulation : Type := mkStrideBased {
  _condition : Q -> Q -> list bool;
  _are_stimulating : list bool   (* One per channel *)
}.

(** [StrideBasedStimulation.__init__] *)
Definition __init__ (condition_function : Q -> Q -> list bool)
  : StrideBasedStimulation :=
  {| _condition := condition_function; _are_stimulating := [] |}.

(** Lines 54-55: [if not self._are_stimulating: self._are_stimulating =
    [False] * len(should_stimulate_channels)].  An empty list is falsy. *)
Definition size_state (are : list bool) (should : list bool) : list bool :=
  match are with
  | [] => replicate (length should) false
  | _ :: _ => are
  end.

(** The [for i in range(len(should_stimulate_channels))] loop, over the
    indices still to visit.  [are] is [self._are_stimulating], updated in
    place, so it is returned also when the loop raises. *)
Fixpoint channels_loop (should : list bool) (indices : list nat)
    (are : list bool) (out : list (option Z))
  : list bool * result (list (option Z)) :=
  match indices with
  | [] => (are, Ok out)
  | i :: rest =>
    match should !! i with
    | None => (are, Raise IndexError)
    | Some should_stimulate =>
      match are !! i with
      | None => (are, Raise IndexError)
      | Some is_stimulating =>
        if should_stimulate && negb is_stimulating then
          channels_loop should rest (<[i := true]> are) (out ++ [Some 0])
        else if should_stimulate && is_stimulating then
          channels_loop should rest are (out ++ [None])
        else if negb should_stimulate && is_stimulating then
          channels_loop should rest (<[i := false]> are) (out ++ [Some (-1)])
        else if negb should_stimulate && negb is_stimulating then
          channels_loop should rest are (out ++ [None])
        else
          (are, Raise (ValueError "This should never happen"))
      end
    end
  end.

(** [StrideBasedStimulation.stimulation_duration] *)
Definition stimulation_duration (self : StrideBasedStimulation)
    (current_time : Q) (data : Data)
  : StrideBasedStimulation * result (list (option Z)) :=
  let stride_left := percentage_of_stride current_time data LEFT in
  let stride_right := percentage_of_stride current_time data RIGHT in
  let should_stimulate_channels := _condition self stride_left stride_right in
  let are := size_state (_are_stimulating self) should_stimulate_channels in
  let '(are', out) :=
    channels_loop should_stimulate_channels
      (seq 0 (length should_stimulate_channels)) are [] in
  ({| _condition := _condition self; _are_stimulating := are' |}, out).

(** What the predicate answers at a tick. *)
Definition wanted (self : StrideBasedStimulation) (current_time : Q)
    (data : Data) : list bool :=
  _condition self (percentage_of_stride current_time data LEFT)
                  (percentage_of_stride current_time data RIGHT).

(** The table of section 4.1 of the specification, in the encoding of the
    code: the command for a channel and its next stored state, from what
    the predicate wants and what is stored. *)
Definition spec_table (want was : bool) : option Z * bool :=
  match want, was with
  | true, false => (Some 0, true)
  | true, true => (None, true)
  | false, true => (Some (-1), false)
  | false, false => (None, false)
  end.

End StrideBased.

Arguments stimulation_duration {Data} percentage_of_stride self
  current_time data.
Arguments wanted {Data} percentage_of_stride self current_time data.

(** [TimeBasedStimulation.stimulation_duration] *)
Definition TimeBased_stimulation_duration : result (list (option Z)) :=
  Raise (NotImplementedError "TODO").

End Stimulation.

(** ** server/lokomat_fes/rehastim/data.py *)

Module Rehastim.

(** *** Time *)

Abbreviation datetime := Z (only parsing).
Abbreviation timedelta := Z (only parsing).

(** [timedelta.total_seconds()]: the quotient by 10^6, of which Python
    returns the nearest float; it has the sign of the timedelta and keeps
    the order. *)
Definition total_seconds (d : timedelta) : Q := Qmake d 1000000.

(** *** Channels and the store of channel objects *)

Record Channel : Type := mkChannel {
  channel_index : Z;
  amplitude : Q
}.

(** A channel of the pyScienceMode library, through its two getters. *)
Record pyScienceModeChannel : Type := mkPyScienceModeChannel {
  get_no_channel : Z;
  get_amplitude : Q
}.

(** [Channel.from_pysciencemode] *)
Definition from_pysciencemode (channel : pyScienceModeChannel) : Channel :=
  mkChannel (get_no_channel channel) (get_amplitude channel).

(** A location is an index into the store; objects are never freed. *)
Abbreviation loc := nat (only parsing).
Abbreviation heap := (list Channel) (only parsing).

(** Creating a [Channel] object. *)
Definition alloc (h : heap) (c : Channel) : heap * loc :=
  (h ++ [c], length h).

(** [channel.amplitude = value] on the object at [l]. *)
Definition set_amplitude (h : heap) (l : loc) (value : Q) : heap :=
  match h !! l with
  | Some c => <[l := mkChannel (channel_index c) value]> h
  | None => h
  end.

(** An element of the [channels] argument of [add]: a pyScienceMode channel
    or a [Channel] of the caller, which [add] only reads. *)
Inductive channel_arg : Type :=
| OfPyScienceMode (channel : pyScienceModeChannel)
| OfChannel (channel : Channel).

(** *** The log *)

(** An entry of [_data]: [(time, duration, channels)]; the duration is
    [None] while the stimulation is not stopped. *)
Abbreviation sample := (Z * option Q * list nat)%type (only parsing).

Record RehastimData : Type := mkRehastimData {
  _t0 : datetime;
  _data : list sample
}.

(** [RehastimData.__init__] *)
Definition __init__ (now : datetime) : RehastimData :=
  {| _t0 := now; _data := [] |}.

(** [RehastimData.__len__] *)
Definition __len__ (self : RehastimData) : nat := length (_data self).

(** [RehastimData.has_data]: [bool(self._data)] *)
Definition has_data (self : RehastimData) : bool :=
  match _data self with [] => false | _ :: _ => true end.

(** [RehastimData.t0] *)
Definition t0 (self : RehastimData) : datetime := _t0 self.

(** [RehastimData.set_t0] *)
Definition set_t0 (self : RehastimData) (new_t0 : option datetime)
    (now : datetime) : RehastimData :=
  {| _t0 := match new_t0 with Some t => t | None => now end;
     _data := _data self |}.

(** The generator of [add]: one fresh [Channel] per element, a conversion of
    a pyScienceMode channel or a [deepcopy] of a [Channel]. *)
Fixpoint copy_channels (h : heap) (channels : list channel_arg)
  : heap * list loc :=
  match channels with
  | [] => (h, [])
  | channel :: rest =>
    let '(h1, l) :=
      match channel with
      | OfPyScienceMode c => alloc h (from_pysciencemode c)
      | OfChannel c => alloc h c
      end in
    let '(h2, ls) := copy_channels h1 rest in
    (h2, l :: ls)
  end.

(** [RehastimData.add] *)
Definition add (h : heap) (self : RehastimData) (now : datetime)
    (duration : option Q) (channels : option (list channel_arg))
  : heap * RehastimData * result unit :=
  match channels with
  | None =>
    if negb (has_data self) then
      (h, self,
       Raise (RuntimeError
         "The first time you add data, you must specify the channels."))
    else
      match last (_data self) with
      | Some (_, _, previous) =>
        (h, {| _t0 := _t0 self;
               _data := _data self ++ [(now, duration, previous)] |}, Ok tt)
      | None => (h, self, Raise IndexError)
      end
  | Some channels =>
    let '(h', copies) := copy_channels h channels in
    (h', {| _t0 := _t0 self;
            _data := _data self ++ [(now, duration, copies)] |}, Ok tt)
  end.

(** [RehastimData.stop_undefined_stimulation_duration]; the second component
    is what goes to [logger.warning]. *)
Definition stop_undefined_stimulation_duration (self : RehastimData)
    (now : datetime) : RehastimData * list string :=
  match last (_data self) with
  | None => (self, ["No data to stop"%string])
  | Some (_, Some _, _) => (self, [])
  | Some (stimulation_started_at, None, channels) =>
    let stimulation_lasted := total_seconds (now - stimulation_started_at) in
    ({| _t0 := _t0 self;
        _data :=
          <[ Nat.pred (length (_data self)) :=
             (stimulation_started_at, Some stimulation_lasted, channels) ]>
          (_data self) |}, [])
  end.

(** *** Indexing a list: [l[index]] *)

Inductive index : Type :=
| Int (i : Z)
| Slice (start stop step : option Z).

(** [l[i]] for an integer: a negative index counts from the end. *)
Definition getitem_int {A} (l : list A) (i : Z) : result A :=
  let n := Z.of_nat (length l) in
  let j := if i <? 0 then i + n else i in
  if (j <? 0) || (n <=? j) then Raise IndexError
  else match l !! Z.to_nat j with
       | Some x => Ok x
       | None => Raise IndexError
       end.

(** One bound of a slice brought into range, as [slice.indices] does. *)
Definition adjust_bound (n step i : Z) : Z :=
  if i <? 0 then
    let i' := i + n in
    if i' <? 0 then (if step <? 0 then -1 else 0) else i'
  else if n <=? i then (if step <? 0 then n - 1 else n)
  else i.

(** First index, step and number of elements of [l[start:stop:step]] for a
    list of length [n]. *)
Definition slice_indices (n : Z) (start stop step : option Z)
  : result (Z * Z * nat) :=
  let step := default 1 step in
  if step =? 0 then Raise (ValueError "slice step cannot be zero")
  else
    let first :=
      match start with
      | Some s => adjust_bound n step s
      | None => if step <? 0 then n - 1 else 0
      end in
    let bound :=
      match stop with
      | Some s => adjust_bound n step s
      | None => if step <? 0 then -1 else n
      end in
    let count :=
      if step <? 0 then
        (if bound <? first then (first - bound - 1) / (- step) + 1 else 0)
      else
        (if first <? bound then (bound - first - 1) / step + 1 else 0) in
    Ok (first, step, Z.to_nat count).

Definition getitem_slice {A} (l : list A) (start stop step : option Z)
  : result (list A) :=
  match slice_indices (Z.of_nat (length l)) start stop step with
  | Raise e => Raise e
  | Ok (first, step, count) =>
    Ok (omap (fun k => l !! Z.to_nat (first + Z.of_nat k * step))
             (seq 0 count))
  end.

(** What [sample_block] returns besides [None]: an entry or a list of
    entries. *)
Inductive block : Type :=
| One (s : sample)
| Many (l : list sample).

(** [RehastimData.sample_block] *)
Definition sample_block (self : RehastimData) (idx : index)
  : result (option block) :=
  match _data self with
  | [] => Ok None
  | _ :: _ =>
    match idx with
    | Int i =>
      match getitem_int (_data self) i with
      | Ok s => Ok (Some (One s))
      | Raise e => Raise e
      end
    | Slice start stop step =>
      match getitem_slice (_data self) start stop step with
      | Ok l => Ok (Some (Many l))
      | Raise e => Raise e
      end
    end
  end.

(** *** numpy arrays

    As much of [numpy.ndarray] as the views use: arrays of one and of two
    dimensions; a two-dimensional one carries its shape, since an array
    can have rows and no column. *)

Inductive ndarray : Type :=
| Array1 (v : list Q)
| Array2 (n_rows n_cols : nat) (rows : list (list Q)).

Definition shape (a : ndarray) : list nat :=
  match a with
  | Array1 v => [length v]
  | Array2 m n _ => [m; n]
  end.

(** [a.size]: the number of elements. *)
Definition size (a : ndarray) : nat :=
  match a with
  | Array1 v => length v
  | Array2 m n _ => (m * n)%nat
  end.

(** [a.flatten()]: the elements, row after row. *)
Definition elements (a : ndarray) : list Q :=
  match a with
  | Array1 v => v
  | Array2 _ _ rows => concat rows
  end.

(** [a[i, j]] of a two-dimensional array. *)
Definition item2 (a : ndarray) (i j : nat) : option Q :=
  match a with
  | Array1 _ => None
  | Array2 _ _ rows => rows !! i ≫= fun r => r !! j
  end.

(** [np.array] of a list of lists of numbers: no row gives the empty array of
    one dimension, rows of one length a matrix, rows of different lengths
    an error. *)
Definition np_array2 (rows : list (list Q)) : result ndarray :=
  match rows with
  | [] => Ok (Array1 [])
  | r :: rest =>
    if forallb (fun r' => Nat.eqb (length r') (length r)) rest
    then Ok (Array2 (length rows) (length r) rows)
    else Raise (ValueError "inhomogeneous shape")
  end.

(** [a.T] *)
Definition transpose (a : ndarray) : ndarray :=
  match a with
  | Array1 v => Array1 v
  | Array2 m n rows =>
    Array2 n m (map (fun j => omap (fun r => r !! j) rows) (seq 0 n))
  end.

(** *** The views *)

(** [duration is not None] *)
Definition is_closed (s : sample) : bool :=
  match s with (_, Some _, _) => true | (_, None, _) => false end.

(** [RehastimData.time] *)
Definition time (self : RehastimData) : ndarray :=
  match _data self with
  | [] => Array1 []
  | _ :: _ =>
    Array1 (map (fun s : sample => total_seconds (s.1.1 - _t0 self))
                (List.filter is_closed (_data self)))
  end.

(** [RehastimData.duration_as_array] *)
Definition duration_as_array (self : RehastimData) : ndarray :=
  match _data self with
  | [] => Array2 1 0 [[]]
  | _ :: _ => Array1 (omap (fun s : sample => s.1.2) (_data self))
  end.

(** [[channel.amplitude for channel in channels]] *)
Definition amplitudes (h : heap) (channels : list loc) : result (list Q) :=
  match mapM (fun l => h !! l) channels with
  | Some cs => Ok (map amplitude cs)
  | None => Raise BadReference
  end.

Fixpoint amplitude_rows (h : heap) (data : list sample)
  : result (list (list Q)) :=
  match data with
  | [] => Ok []
  | (_, duration, channels) :: rest =>
    match duration with
    | None => amplitude_rows h rest
    | Some _ =>
      match amplitudes h channels with
      | Raise e => Raise e
      | Ok row =>
        match amplitude_rows h rest with
        | Raise e => Raise e
        | Ok rows => Ok (row :: rows)
        end
      end
    end
  end.

(** [RehastimData.amplitude_as_array] *)
Definition amplitude_as_array (h : heap) (self : RehastimData)
  : result ndarray :=
  match _data self with
  | [] => Ok (Array2 1 0 [[]])
  | _ :: _ =>
    match amplitude_rows h (_data self) with
    | Raise e => Raise e
    | Ok rows =>
      match np_array2 rows with
      | Raise e => Raise e
      | Ok a => Ok (transpose a)
      end
    end
  end.

(** *** Serialization *)

(** The values of the dictionary that [serialized] builds. *)
Inductive pyobj : Type :=
| PyDatetime (t : datetime)
| PyData (data : list sample).

(** [RehastimData.serialized] *)
Definition serialized (self : RehastimData) : gmap string pyobj :=
  {[ "t0"%string := PyDatetime (_t0 self);
     "data"%string := PyData (_data self) ]}.

(** [RehastimData.deserialize]; [cls()] reads the clock, then both fields
    are overwritten. *)
Definition deserialize (now : datetime) (data : gmap string pyobj)
  : result RehastimData :=
  let out := __init__ now in
  match data !! "t0"%string with
  | None => Raise (KeyError "t0")
  | Some (PyData _) => Raise BadType
  | Some (PyDatetime t) =>
    let out := {| _t0 := t; _data := _data out |} in
    match data !! "data"%string with
    | None => Raise (KeyError "data")
    | Some (PyDatetime _) => Raise BadType
    | Some (PyData d) => Ok {| _t0 := _t0 out; _data := d |}
    end
  end.

(** [pickle] (Python's standard library).  [pickle.dump] writes the object
    and every object it refers to; [pickle.load] builds them again as new
    objects, two references to one object staying two references to one
    object.  A pickled object is kept with the store it was taken from, and
    loading puts that store after the current one and moves the references
    accordingly. *)
Record pickled : Type := mkPickled {
  p_heap : heap;
  p_obj : gmap string pyobj
}.

Definition pickle_dump (h : heap) (obj : gmap string pyobj) : pickled :=
  {| p_heap := h; p_obj := obj |}.

Definition relocate_sample (base : nat) (s : sample) : sample :=
  (s.1.1, s.1.2, map (Nat.add base) s.2).

Definition relocate (base : nat) (o : pyobj) : pyobj :=
  match o with
  | PyDatetime t => PyDatetime t
  | PyData data => PyData (map (relocate_sample base) data)
  end.

Definition pickle_load (h : heap) (p : pickled) : heap * gmap string pyobj :=
  (h ++ p_heap p, relocate (length h) <$> p_obj p).

(** [RehastimData.save], on a file system that maps a path to the pickled
    object written there. *)
Definition save (fs : gmap string pickled) (h : heap) (self : RehastimData)
    (path : string) : gmap string pickled :=
  <[path := pickle_dump h (serialized self)]> fs.

(** [RehastimData.load] *)
Definition load (fs : gmap string pickled) (h : heap) (now : datetime)
    (path : string) : heap * result RehastimData :=
  match fs !! path with
  | None => (h, Raise (FileNotFoundError path))
  | Some p =>
    let '(h', data) := pickle_load h p in
    (h', deserialize now data)
  end.

(** *** What an entry says, read through the store *)

Definition sample_value (h : heap) (s : sample)
  : datetime * option Q * list (option Channel) :=
  (s.1.1, s.1.2, map (fun l => h !! l) s.2).

(** Every location of the log is in the store. *)
Definition well_formed (h : heap) (self : RehastimData) : Prop :=
  Forall (fun s : sample => Forall (fun l => (l < length h)%nat) s.2)
         (_data self).

(** *** Logs that the two writing methods build *)

(** The last entry is not stopped. *)
Definition pending (self : RehastimData) : bool :=
  match last (_data self) with
  | Some (_, None, _) => true
  | _ => false
  end.

(** From a new log, by any calls of [add] and
    [stop_undefined_stimulation_duration]. *)
Inductive reachable : heap -> RehastimData -> Prop :=
| reachable_new h now : reachable h (__init__ now)
| reachable_add h self now duration channels h' self' r :
    reachable h self ->
    add h self now duration channels = (h', self', r) ->
    reachable h' self'
| reachable_stop h self now :
    reachable h self ->
    reachable h (stop_undefined_stimulation_duration self now).1.

(** The same, where [add] is called only on a log whose last entry is
    stopped, as the docstring of [add] asks of the user for an entry added
    with [duration=None]. *)
Inductive reachable_stopping : heap -> RehastimData -> Prop :=
| stopping_new h now : reachable_stopping h (__init__ now)
| stopping_add h self now duration channels h' self' r :
    reachable_stopping h self ->
    pending self = false ->
    add h self now duration channels = (h', self', r) ->
    reachable_stopping h' self'
| stopping_stop h self now :
    reachable_stopping h self ->
    reachable_stopping h (stop_undefined_stimulation_duration self now).1.

(** The entries that are not stopped. *)
Definition open_entries (self : RehastimData) : list sample :=
  List.filter (fun s => negb (is_closed s)) (_data self).

(** *** The other methods of the two classes *)

(** The values of the dictionary that [Channel.serialized] builds. *)
Inductive pyfield : Type :=
| PyInt (z : Z)
| PyFloat (q : Q).

(** [Channel.serialized] *)
Definition Channel_serialized (self : Channel) : gmap string pyfield :=
  {[ "channel_index"%string := PyInt (channel_index self);
     "amplitude"%string := PyFloat (amplitude self) ]}.

(** [Channel.deserialize]: [cls(data["channel_index"], data["amplitude"])],
    the index being read first. *)
Definition Channel_deserialize (data : gmap string pyfield)
  : result Channel :=
  match data !! "channel_index"%string with
  | None => Raise (KeyError "channel_index")
  | Some (PyFloat _) => Raise BadType
  | Some (PyInt i) =>
    match data !! "amplitude"%string with
    | None => Raise (KeyError "amplitude")
    | Some (PyInt _) => Raise BadType
    | Some (PyFloat a) => Ok (mkChannel i a)
    end
  end.

(** [RehastimData.copy].  [deepcopy] builds a new object for every
    [Channel] of the log, two references to one object staying two
    references to one object; as for [pickle_load], the copies are put
    after the store. *)
Definition copy (h : heap) (self : RehastimData) (now : datetime)
  : heap * RehastimData :=
  let out := __init__ now in
  let out := {| _t0 := _t0 self; _data := _data out |} in
  (h ++ h,
   {| _t0 := _t0 out;
      _data := map (relocate_sample (length h)) (_data self) |}).

(** A log moved after a store [h2]: what [deepcopy] and [pickle.load]
    build. *)
Definition moved (h2 : heap) (self : RehastimData) : RehastimData :=
  {| _t0 := _t0 self;
     _data := map (relocate_sample (length h2)) (_data self) |}.

(** The [Channel] that the generator of [add] makes of an element. *)
Definition arg_channel (channel : channel_arg) : Channel :=
  match channel with
  | OfPyScienceMode c => from_pysciencemode c
  | OfChannel c => c
  end.

(** Logs built from a new one while the clock never goes back; the first
    argument is the last reading of the clock. *)
Inductive reachable_clock : Z -> heap -> RehastimData -> Prop :=
| clock_new h now : reachable_clock now h (__init__ now)
| clock_add clock h self now duration channels h' self' r :
    reachable_clock clock h self ->
    clock <= now ->
    add h self now duration channels = (h', self', r) ->
    reachable_clock now h' self'
| clock_stop clock h self now :
    reachable_clock clock h self ->
    clock <= now ->
    reachable_clock now h (stop_undefined_stimulation_duration self now).1.

End Rehastim.

(** * Properties of the stride-based decision engine *)

Section StrideBasedProperties.

Import Stimulation.

Variable Data : Type.
Variable percentage_of_stride : Q -> Data -> Side -> Q.

(** One turn of the loop on a channel that both lists have: whatever the
    branch, the stored state takes the wanted value and the command of the
    table is emitted. *)
Lemma channels_loop_step (should : list bool) i rest are out want was :
  should !! i = Some want ->
  are !! i = Some was ->
  channels_loop should (i :: rest) are out =
  channels_loop should rest (<[i := want]> are)
    (out ++ [(spec_table want was).1]).
Proof.
  intros Hs Ha. cbn [channels_loop]. rewrite Hs, Ha.
  destruct want, was; cbn; try reflexivity;
    rewrite (list_insert_id are i _ Ha); reflexivity.
Qed.

(** The [else] branch of the loop is dead. *)
Lemma channels_loop_no_ValueError (should : list bool) indices :
  forall are out msg,
    (channels_loop should indices are out).2 <> Raise (ValueError msg).
Proof.
  induction indices as [|i rest IH]; intros are out msg; cbn [channels_loop].
  - discriminate.
  - destruct (should !! i) as [want|]; [|discriminate].
    destruct (are !! i) as [was|]; [|discriminate].
    destruct want, was; cbn; apply IH.
Qed.

(** The stored state after the loop over [k, k+n): same length, the
    wanted value at every visited index that the state has, and no change
    elsewhere; this holds also when the loop raises. *)
Lemma channels_loop_state (should : list bool) n :
  forall k are out,
    (k + n <= length should)%nat ->
    let are' := (channels_loop should (seq k n) are out).1 in
    length are' = length are /\
    (forall i want, (k <= i < k + n)%nat ->
       should !! i = Some want -> is_Some (are !! i) ->
       are' !! i = Some want) /\
    (forall i, ~ (k <= i < k + n)%nat -> are' !! i = are !! i).
Proof.
  induction n as [|n IH]; intros k are out Hlen; cbn zeta.
  - cbn. split; [reflexivity|]. split; [intros; lia | reflexivity].
  - cbn [seq].
    destruct (lookup_lt_is_Some_2 should k) as [want Hw]; [lia|].
    destruct (are !! k) as [was|] eqn:Ha.
    + rewrite (channels_loop_step _ _ _ _ _ _ _ Hw Ha).
      destruct (IH (S k) (<[k := want]> are)
                  (out ++ [(spec_table want was).1])) as (Hl & Hin & Hout);
        [lia|].
      rewrite length_insert in Hl.
      split; [exact Hl|]. split.
      * intros i w Hi Hs Hsome.
        destruct (decide (i = k)) as [->|Hne].
        -- rewrite Hout by lia.
           rewrite list_lookup_insert_eq by (eapply lookup_lt_Some; eauto).
           congruence.
        -- apply Hin; [lia | exact Hs |].
           rewrite list_lookup_insert_ne by congruence. exact Hsome.
      * intros i Hi. rewrite Hout by lia.
        apply list_lookup_insert_ne. lia.
    + cbn [channels_loop]. rewrite Hw, Ha. cbn.
      split; [reflexivity|]. split; [|reflexivity].
      intros i w Hi _ [x Hx].
      apply lookup_lt_Some in Hx. apply lookup_ge_None in Ha. lia.
Qed.

(** When the state has every visited index the loop returns, with one
    command per index, the one of the table. *)
Lemma channels_loop_returns (should : list bool) n :
  forall k are out,
    (k + n <= length should)%nat ->
    (k + n <= length are)%nat ->
    exists out',
      (channels_loop should (seq k n) are out).2 = Ok (out ++ out') /\
      length out' = n /\
      forall i want was, (k <= i < k + n)%nat ->
        should !! i = Some want -> are !! i = Some was ->
        out' !! (i - k)%nat = Some (spec_table want was).1.
Proof.
  induction n as [|n IH]; intros k are out Hs Ha.
  - exists []. cbn. rewrite app_nil_r.
    split; [reflexivity|]. split; [reflexivity | intros; lia].
  - cbn [seq].
    destruct (lookup_lt_is_Some_2 should k) as [want Hw]; [lia|].
    destruct (lookup_lt_is_Some_2 are k) as [was Hk]; [lia|].
    rewrite (channels_loop_step _ _ _ _ _ _ _ Hw Hk).
    destruct (IH (S k) (<[k := want]> are)
                (out ++ [(spec_table want was).1])) as (out' & Hr & Hl & Hc);
      [lia | rewrite length_insert; lia |].
    exists ((spec_table want was).1 :: out').
    split; [|split].
    + rewrite Hr, <- app_assoc. reflexivity.
    + cbn. lia.
    + intros i w b Hi Hsi Hai.
      destruct (decide (i = k)) as [->|Hne].
      * replace (k - k)%nat with 0%nat by lia. cbn. congruence.
      * replace (i - k)%nat with (S (i - S k)) by lia. cbn.
        apply Hc; [lia | exact Hsi |].
        rewrite list_lookup_insert_ne by congruence. exact Hai.
Qed.

(** When the state is shorter than the answer of the predicate the loop
    raises [IndexError]. *)
Lemma channels_loop_raises (should : list bool) n :
  forall k are out,
    (k + n <= length should)%nat ->
    (k <= length are < k + n)%nat ->
    (channels_loop should (seq k n) are out).2 = Raise IndexError.
Proof.
  induction n as [|n IH]; intros k are out Hs Ha; [lia|].
  cbn [seq].
  destruct (lookup_lt_is_Some_2 should k) as [want Hw]; [lia|].
  destruct (are !! k) as [was|] eqn:Hk.
  - rewrite (channels_loop_step _ _ _ _ _ _ _ Hw Hk).
    apply lookup_lt_Some in Hk.
    apply IH; [lia | rewrite length_insert; lia].
  - cbn [channels_loop]. rewrite Hw, Hk. reflexivity.
Qed.

(** [stimulation_duration], with the loop as a pair. *)
Lemma stimulation_duration_loop (self : StrideBasedStimulation) t data :
  let should := wanted percentage_of_stride self t data in
  let r := channels_loop should (seq 0 (length should))
             (size_state (_are_stimulating self) should) [] in
  stimulation_duration percentage_of_stride self t data =
  ({| _condition := _condition self; _are_stimulating := r.1 |}, r.2).
Proof.
  cbn zeta. unfold stimulation_duration, wanted.
  destruct (channels_loop _ _ _ _). reflexivity.
Qed.

(** The predicate is the same after a tick. *)
Lemma stimulation_duration_condition (self : StrideBasedStimulation) t data :
  _condition (stimulation_duration percentage_of_stride self t data).1
  = _condition self.
Proof. rewrite stimulation_duration_loop. reflexivity. Qed.

(** C1.  At every tick and for every channel [i] that the answer of the
    predicate and the stored state (once sized) both have, the stored
    state after the tick and the command emitted for [i] are those of the
    table of section 4.1 for (want, was): (true, false) gives 0, that is
    Start(0), and stores true; (true, true) gives None and stores true;
    (false, true) gives -1, that is Stop, and stores false; (false, false)
    gives None and stores false.  The tick returns whenever the state is
    as long as the answer, and it never raises the ValueError of the last
    branch.  A new engine of one channel whose predicate answers true,
    true, false at three ticks emits [0], [None], [-1] and ends with the
    state [false]. *)
Theorem stride_transition_table :
  (forall (self : StrideBasedStimulation) t data i want was,
     let should := wanted percentage_of_stride self t data in
     let are := size_state (_are_stimulating self) should in
     let r := stimulation_duration percentage_of_stride self t data in
     should !! i = Some want ->
     are !! i = Some was ->
     _are_stimulating r.1 !! i = Some (spec_table want was).2 /\
     (forall out, r.2 = Ok out -> out !! i = Some (spec_table want was).1) /\
     ((length should <= length are)%nat ->
      exists out, r.2 = Ok out /\ length out = length should) /\
     (forall msg, r.2 <> Raise (ValueError msg))) /\
  (command_of (spec_table true false).1 = Some (Start 0) /\
   (spec_table true false).2 = true /\
   command_of (spec_table true true).1 = None /\
   (spec_table true true).2 = true /\
   command_of (spec_table false true).1 = Some Stop /\
   (spec_table false true).2 = false /\
   command_of (spec_table false false).1 = None /\
   (spec_table false false).2 = false) /\
  (forall condition t1 d1 t2 d2 t3 d3,
     let e0 := __init__ condition in
     wanted percentage_of_stride e0 t1 d1 = [true] ->
     wanted percentage_of_stride e0 t2 d2 = [true] ->
     wanted percentage_of_stride e0 t3 d3 = [false] ->
     let r1 := stimulation_duration percentage_of_stride e0 t1 d1 in
     let r2 := stimulation_duration percentage_of_stride r1.1 t2 d2 in
     let r3 := stimulation_duration percentage_of_stride r2.1 t3 d3 in
     r1.2 = Ok [Some 0] /\ r2.2 = Ok [None] /\ r3.2 = Ok [Some (-1)] /\
     _are_stimulating r3.1 = [false]).
Proof.
  split; [|split].
  - intros self t data i want was should are r Hw Ha. subst r.
    rewrite stimulation_duration_loop. cbn [fst snd].
    fold should. fold are.
    assert (Hi : (i < length should)%nat) by (eapply lookup_lt_Some; eauto).
    destruct (channels_loop_state should (length should) 0%nat are [])
      as (_ & Hin & _); [lia|].
    split; [|split; [|split]].
    + cbn [_are_stimulating]. rewrite (Hin i want); [| lia | exact Hw | eauto].
      destruct want, was; reflexivity.
    + intros out Hout.
      destruct (Nat.le_gt_cases (length should) (length are)) as [Hle|Hgt].
      * destruct (channels_loop_returns should (length should) 0%nat are [])
          as (out' & Hr & _ & Hc); [lia | lia |].
        rewrite Hr in Hout. cbn in Hout. injection Hout as <-.
        rewrite <- (Hc i want was); [| lia | exact Hw | exact Ha].
        f_equal. lia.
      * rewrite (channels_loop_raises should (length should) 0%nat are [])
          in Hout; [discriminate | lia | lia].
    + intros Hle.
      destruct (channels_loop_returns should (length should) 0%nat are [])
        as (out' & Hr & Hl & _); [lia | lia |].
      exists out'. split; [exact Hr | exact Hl].
    + intros msg. apply channels_loop_no_ValueError.
  - repeat split.
  - intros condition t1 d1 t2 d2 t3 d3 e0 H1 H2 H3 r1 r2 r3.
    assert (E1 : r1 = ({| _condition := condition;
                         _are_stimulating := [true] |}, Ok [Some 0])).
    { subst r1. rewrite stimulation_duration_loop. rewrite H1. reflexivity. }
    assert (E2 : r2 = ({| _condition := condition;
                         _are_stimulating := [true] |}, Ok [None])).
    { subst r2. rewrite E1. rewrite stimulation_duration_loop.
      change (wanted percentage_of_stride _ t2 d2)
        with (wanted percentage_of_stride e0 t2 d2).
      rewrite H2. reflexivity. }
    assert (E3 : r3 = ({| _condition := condition;
                         _are_stimulating := [false] |}, Ok [Some (-1)])).
    { subst r3. rewrite E2. rewrite stimulation_duration_loop.
      change (wanted percentage_of_stride _ t3 d3)
        with (wanted percentage_of_stride e0 t3 d3).
      rewrite H3. reflexivity. }
    rewrite E1, E2, E3. repeat split.
Qed.

(** C9.  A new engine stores no state.  At its first call the state is
    sized to the answer of the predicate, N values, all false; the loop
    then runs on that state: the call returns, for every channel the
    command of the table for a channel that was not stimulating, and the
    stored state has N values afterwards (the wanted ones). *)
Theorem stride_first_call_sizes_state :
  forall condition t data,
    let e0 := __init__ condition in
    let should := wanted percentage_of_stride e0 t data in
    let r := stimulation_duration percentage_of_stride e0 t data in
    _are_stimulating e0 = [] /\
    size_state (_are_stimulating e0) should
      = replicate (length should) false /\
    r.2 = Ok (map (fun want => (spec_table want false).1) should) /\
    length (_are_stimulating r.1) = length should /\
    _are_stimulating r.1 = should.
Proof.
  intros condition t data e0 should r.
  split; [reflexivity|]. split; [reflexivity|].
  subst r. rewrite stimulation_duration_loop. cbn [fst snd _are_stimulating].
  fold should. change (size_state _ should)
    with (replicate (length should) false).
  set (are := replicate (length should) false).
  assert (Hlen : length are = length should) by apply length_replicate.
  destruct (channels_loop_state should (length should) 0%nat are [])
    as (Hl & Hin & _); [lia|].
  destruct (channels_loop_returns should (length should) 0%nat are [])
    as (out' & Hr & Hlo & Hc); [lia | lia |].
  assert (Hstate : (channels_loop should (seq 0 (length should)) are []).1
                   = should).
  { apply list_eq. intros i.
    destruct (should !! i) as [want|] eqn:Hw.
    - apply Hin; [apply lookup_lt_Some in Hw; lia | exact Hw |].
      apply lookup_lt_is_Some_2. apply lookup_lt_Some in Hw. lia.
    - apply lookup_ge_None. apply lookup_ge_None in Hw. lia. }
  split; [|split].
  - rewrite Hr. change ([] ++ out') with out'. f_equal.
    apply list_eq. intros i.
    rewrite list_lookup_fmap.
    destruct (should !! i) as [want|] eqn:Hw.
    + replace i with (i - 0)%nat at 1 by lia.
      rewrite (Hc i want false); [reflexivity | | exact Hw |].
      * apply lookup_lt_Some in Hw. lia.
      * apply lookup_replicate_2. eapply lookup_lt_Some; eauto.
    + apply lookup_ge_None. apply lookup_ge_None in Hw. lia.
  - rewrite Hstate. reflexivity.
  - exact Hstate.
Qed.

(** C2, as the code has it.  Let the stored state have N >= 1 values and
    the predicate answer M values.  If M > N the call raises IndexError.
    If M < N the call does not fail: it returns M commands, the stored
    state keeps its N values and those from M on are not touched. *)
Theorem stride_length_mismatch :
  forall (self : StrideBasedStimulation) t data,
    let should := wanted percentage_of_stride self t data in
    let are := _are_stimulating self in
    let r := stimulation_duration percentage_of_stride self t data in
    (0 < length are)%nat ->
    ((length are < length should)%nat -> r.2 = Raise IndexError) /\
    ((length should < length are)%nat ->
       exists out, r.2 = Ok out /\ length out = length should /\
         length (_are_stimulating r.1) = length are /\
         forall i, (length should <= i)%nat ->
           _are_stimulating r.1 !! i = are !! i).
Proof.
  intros self t data should are r Hpos. subst r.
  rewrite stimulation_duration_loop. cbn [fst snd _are_stimulating].
  fold should.
  assert (Hsz : size_state (_are_stimulating self) should = are).
  { subst are. destruct (_are_stimulating self); [cbn in Hpos; lia|].
    reflexivity. }
  rewrite Hsz. split.
  - intros Hlt. apply channels_loop_raises; lia.
  - intros Hlt.
    destruct (channels_loop_returns should (length should) 0%nat are [])
      as (out' & Hr & Hl & _); [lia | lia |].
    destruct (channels_loop_state should (length should) 0%nat are [])
      as (Hla & _ & Hout); [lia|].
    exists out'. repeat split; try assumption.
    intros i Hi. apply Hout. lia.
Qed.

End StrideBasedProperties.

(** The table at a channel that is wanted and not stimulating.  In the
    examples the data is nothing and the position in the stride is the
    time. *)
Lemma stride_transition_table_witness :
  let self := Stimulation.mkStrideBased (fun _ _ => [true]) [false] in
  let r := Stimulation.stimulation_duration (fun t (_ : unit) _ => t)
             self 0%Q tt in
  Stimulation._are_stimulating r.1 !! 0%nat = Some true /\
  (forall out, r.2 = Ok out -> out !! 0%nat = Some (Some 0)) /\
  ((1 <= 1)%nat -> exists out, r.2 = Ok out /\ length out = 1%nat) /\
  (forall msg, r.2 <> Raise (ValueError msg)).
Proof.
  exact (proj1 (stride_transition_table unit (fun t _ _ => t))
           (Stimulation.mkStrideBased (fun _ _ => [true]) [false]) 0%Q tt
           0%nat true false eq_refl eq_refl).
Defined.

(** A state of two values and an answer of one. *)
Lemma stride_length_mismatch_witness :
  let self := Stimulation.mkStrideBased (fun _ _ => [false]) [true; true] in
  let r := Stimulation.stimulation_duration (fun t (_ : unit) _ => t)
             self 0%Q tt in
  (0 < 2)%nat /\
  exists out, r.2 = Ok out /\ length out = 1%nat /\
    length (Stimulation._are_stimulating r.1) = 2%nat /\
    forall i, (1 <= i)%nat ->
      Stimulation._are_stimulating r.1 !! i = [true; true] !! i.
Proof.
  split; [lia|].
  apply (stride_length_mismatch unit (fun t _ _ => t)
           (Stimulation.mkStrideBased (fun _ _ => [false]) [true; true])
           0%Q tt).
  - cbn. lia.
  - cbn. lia.
Defined.

(** C2 fails on the code.  An engine sized to two channels by its first
    call, whose predicate answers for one channel at the second call: the
    second call returns one command and the stored state keeps two values. *)
Lemma stride_shorter_answer_tolerated :
  let pos := fun (t : Q) (_ : unit) (_ : Stimulation.Side) => t in
  let condition := fun (l _ : Q) =>
    if Qle_bool l 0 then [true; true] else [false] in
  let e1 := (Stimulation.stimulation_duration pos
               (Stimulation.__init__ condition) 0%Q tt).1 in
  let r := Stimulation.stimulation_duration pos e1 1%Q tt in
  length (Stimulation._are_stimulating e1) = 2%nat /\
  length (Stimulation.wanted pos e1 1%Q tt) = 1%nat /\
  r.2 = Ok [Some (-1)] /\
  Stimulation._are_stimulating r.1 = [false; true].
Proof. vm_compute. repeat split. Qed.

(** * Properties of the event log *)

Section RehastimProperties.

Import Rehastim.

Implicit Types (self : RehastimData) (h : list Channel).

(** A list is empty or has a last element. *)
Lemma last_cases {A} (l : list A) :
  l = [] \/ exists init x, l = init ++ [x] /\ last l = Some x.
Proof.
  destruct (last l) as [x|] eqn:E.
  - right. apply last_Some in E as [init ->]. exists init, x.
    split; reflexivity.
  - left. apply last_None. exact E.
Qed.

(** Writing at the last index replaces the last element. *)
Lemma insert_last {A} (init : list A) (x y : A) :
  <[Nat.pred (length (init ++ [x])) := y]> (init ++ [x]) = init ++ [y].
Proof.
  rewrite length_app. cbn [length].
  replace (Nat.pred (length init + 1)) with (length init + 0)%nat by lia.
  rewrite insert_app_r. reflexivity.
Qed.

(** [stop_undefined_stimulation_duration], case by case. *)
Lemma stop_undefined_empty self now :
  _data self = [] ->
  stop_undefined_stimulation_duration self now
  = (self, ["No data to stop"%string]).
Proof.
  intros E. unfold stop_undefined_stimulation_duration. rewrite E.
  reflexivity.
Qed.

Lemma stop_undefined_closed self now init t d channels :
  _data self = init ++ [(t, Some d, channels)] ->
  stop_undefined_stimulation_duration self now = (self, []).
Proof.
  intros E. unfold stop_undefined_stimulation_duration.
  rewrite E, last_snoc. reflexivity.
Qed.

Lemma stop_undefined_open self now init t channels :
  _data self = init ++ [(t, None, channels)] ->
  stop_undefined_stimulation_duration self now
  = ({| _t0 := _t0 self;
        _data := init ++ [(t, Some (total_seconds (now - t)), channels)] |},
     []).
Proof.
  intros E. unfold stop_undefined_stimulation_duration.
  rewrite E, last_snoc, insert_last. reflexivity.
Qed.

(** The sign of [total_seconds] is the sign of the difference. *)
Lemma total_seconds_nonneg (d : Z) : 0 <= d -> (0 <= total_seconds d)%Q.
Proof. intros H. unfold total_seconds, Qle. cbn. lia. Qed.

Lemma total_seconds_neg (d : Z) : d < 0 -> (total_seconds d < 0)%Q.
Proof. intros H. unfold total_seconds, Qlt. cbn. lia. Qed.

(** C4, as the code has it.  [stop_undefined_stimulation_duration] keeps
    the origin time, the number of entries and every entry before the
    last.  On an empty log it changes nothing and warns; on a log whose
    last entry has a duration it changes nothing.  Otherwise the last
    entry keeps its time and its channels and takes the duration
    [now - time]; that duration is not negative when the clock, read at
    [now], is not before the time of the entry. *)
Theorem stop_undefined_frame :
  forall self now,
    let r := stop_undefined_stimulation_duration self now in
    _t0 r.1 = _t0 self /\
    length (_data r.1) = length (_data self) /\
    (forall i, (S i < length (_data self))%nat ->
       _data r.1 !! i = _data self !! i) /\
    (_data self = [] -> r = (self, ["No data to stop"%string])) /\
    (forall t d channels,
       last (_data self) = Some (t, Some d, channels) -> r = (self, [])) /\
    (forall t channels,
       last (_data self) = Some (t, None, channels) ->
       last (_data r.1)
         = Some (t, Some (total_seconds (now - t)), channels) /\
       r.2 = [] /\
       (t <= now -> (0 <= total_seconds (now - t))%Q)).
Proof.
  intros self now r. subst r.
  destruct (last_cases (_data self)) as [E | (init & [[t d] ch] & E & El)].
  - rewrite (stop_undefined_empty _ _ E). cbn [fst snd].
    do 4 (split; [reflexivity|]). split.
    + intros t d ch Hl. rewrite E in Hl. discriminate.
    + intros t ch Hl. rewrite E in Hl. discriminate.
  - destruct d as [d|].
    + rewrite (stop_undefined_closed _ _ _ _ _ _ E). cbn [fst snd].
      do 3 (split; [reflexivity|]). split; [|split].
      * intros Hn. rewrite Hn in E. destruct init; discriminate.
      * reflexivity.
      * intros t' ch' Hl. rewrite El in Hl. discriminate.
    + rewrite (stop_undefined_open _ _ _ _ _ E). cbn [fst snd _t0 _data].
      rewrite E. split; [reflexivity|]. split; [|split; [|split; [|split]]].
      * rewrite !length_app. reflexivity.
      * intros i Hi. rewrite length_app in Hi. cbn in Hi.
        rewrite !lookup_app_l by lia. reflexivity.
      * intros Hn. destruct init; discriminate.
      * intros t' d' ch' Hl. rewrite last_snoc in Hl. discriminate.
      * intros t' ch' Hl. rewrite last_snoc in Hl.
        injection Hl as <- <-. rewrite last_snoc.
        split; [reflexivity|]. split; [reflexivity|].
        intros Hle. apply total_seconds_nonneg. lia.
Qed.

(** C8.  A second call of [stop_undefined_stimulation_duration], whatever
    the clock then says, leaves the log as the first call left it. *)
Theorem stop_undefined_idempotent :
  forall self now1 now2,
    (stop_undefined_stimulation_duration
       (stop_undefined_stimulation_duration self now1).1 now2).1
    = (stop_undefined_stimulation_duration self now1).1.
Proof.
  intros self now1 now2.
  destruct (last_cases (_data self)) as [E | (init & [[t d] ch] & E & _)].
  - rewrite (stop_undefined_empty _ now1 E). cbn [fst].
    rewrite (stop_undefined_empty _ now2 E). reflexivity.
  - destruct d as [d|].
    + rewrite (stop_undefined_closed _ now1 _ _ _ _ E). cbn [fst].
      rewrite (stop_undefined_closed _ now2 _ _ _ _ E). reflexivity.
    + rewrite (stop_undefined_open _ now1 _ _ _ E). cbn [fst].
      erewrite (stop_undefined_closed _ now2); reflexivity.
Qed.

(** [add], case by case. *)
Lemma add_without_channels_empty h self now duration :
  _data self = [] ->
  add h self now duration None
  = (h, self,
     Raise (RuntimeError
       "The first time you add data, you must specify the channels.")).
Proof. intros E. unfold add, has_data. rewrite E. reflexivity. Qed.

(** Without channels, on a log that has an entry: no object is created,
    and the new entry holds the very locations of the last one. *)
Lemma add_without_channels_shares h self now duration init t d channels :
  _data self = init ++ [(t, d, channels)] ->
  add h self now duration None
  = (h, {| _t0 := _t0 self;
           _data := _data self ++ [(now, duration, channels)] |}, Ok tt).
Proof.
  intros E. unfold add, has_data. rewrite E, last_snoc.
  destruct init; reflexivity.
Qed.

Lemma add_with_channels h self now duration channels :
  add h self now duration (Some channels)
  = ((copy_channels h channels).1,
     {| _t0 := _t0 self;
        _data := _data self
                 ++ [(now, duration, (copy_channels h channels).2)] |},
     Ok tt).
Proof. unfold add. destruct (copy_channels h channels). reflexivity. Qed.

(** [add] appends one entry or, when it raises, nothing; it never touches
    the origin time. *)
Lemma add_appends h self now duration channels h' self' r :
  add h self now duration channels = (h', self', r) ->
  _t0 self' = _t0 self /\
  ((r = Ok tt /\ exists channels',
      _data self' = _data self ++ [(now, duration, channels')]) \/
   (r <> Ok tt /\ self' = self /\ h' = h)).
Proof.
  intros H. destruct channels as [cs|].
  - rewrite add_with_channels in H. injection H as <- <- <-.
    split; [reflexivity|]. left. split; [reflexivity | eauto].
  - destruct (last_cases (_data self)) as [E | (init & [[t d] ch] & E & _)].
    + rewrite (add_without_channels_empty _ _ _ _ E) in H.
      injection H as <- <- <-. split; [reflexivity|]. right.
      split; [discriminate | split; reflexivity].
    + rewrite (add_without_channels_shares _ _ _ _ _ _ _ _ E) in H.
      injection H as <- <- <-. split; [reflexivity|]. left.
      split; [reflexivity | eauto].
Qed.

(** [stop_undefined_stimulation_duration] changes nothing, or stops a last
    entry that was not stopped. *)
Lemma stop_undefined_data self now :
  let self' := (stop_undefined_stimulation_duration self now).1 in
  _data self' = _data self \/
  exists init t d channels,
    _data self = init ++ [(t, None, channels)] /\
    _data self' = init ++ [(t, Some d, channels)].
Proof.
  cbn zeta.
  destruct (last_cases (_data self)) as [E | (init & [[t d] ch] & E & _)].
  - rewrite (stop_undefined_empty _ _ E). left. reflexivity.
  - destruct d as [d|].
    + rewrite (stop_undefined_closed _ _ _ _ _ _ E). left. reflexivity.
    + rewrite (stop_undefined_open _ _ _ _ _ E). right.
      exists init, t, (total_seconds (now - t)), ch. split; [exact E|].
      reflexivity.
Qed.

Lemma pending_false_last_closed self init x :
  _data self = init ++ [x] -> pending self = false -> is_closed x = true.
Proof.
  intros E. unfold pending. rewrite E, last_snoc.
  destruct x as [[t [d|]] ch]; [reflexivity | discriminate].
Qed.

(** The invariant behind C5: every entry before the last is stopped. *)
Lemma reachable_stopping_earlier_closed h self :
  reachable_stopping h self ->
  forall init x, _data self = init ++ [x] ->
    Forall (fun s => is_closed s = true) init.
Proof.
  induction 1 as [h now | h self now d cs h' self' r _ IH Hp Hadd
                 | h self now _ IH]; intros init x E.
  - destruct init; discriminate.
  - apply add_appends in Hadd as [_ [[_ [ch' Hd]] | [_ [-> _]]]].
    + rewrite Hd in E. apply app_inj_tail in E as [<- _].
      destruct (last_cases (_data self)) as [E0 | (init0 & x0 & E0 & _)].
      * rewrite E0. constructor.
      * rewrite E0. apply Forall_app. split; [eapply IH; eauto|].
        constructor; [|constructor].
        eapply pending_false_last_closed; eauto.
    + eapply IH; eauto.
  - destruct (stop_undefined_data self now)
      as [Hd | (init0 & t & d & ch & E0 & Hd)].
    + rewrite Hd in E. eapply IH; eauto.
    + rewrite Hd in E. apply app_inj_tail in E as [<- _].
      eapply IH; eauto.
Qed.

Lemma no_open_among_closed (l : list (Z * option Q * list nat)) :
  Forall (fun s => is_closed s = true) l ->
  List.filter (fun s => negb (is_closed s)) l = [].
Proof.
  induction 1 as [|s l Hs _ IH]; [reflexivity|].
  cbn. rewrite Hs. cbn. exact IH.
Qed.

(** C5, as the code has it.  In a log built from a new one by calls of
    [add] and [stop_undefined_stimulation_duration], where [add] is never
    called while the last entry is not stopped, at most one entry is not
    stopped, and such an entry is the last one. *)
Theorem stopping_log_one_open_entry :
  forall h self,
    reachable_stopping h self ->
    (length (open_entries self) <= 1)%nat /\
    forall i s, _data self !! i = Some s -> is_closed s = false ->
      S i = length (_data self).
Proof.
  intros h self Hr.
  pose proof (reachable_stopping_earlier_closed h self Hr) as Hinv.
  unfold open_entries.
  destruct (last_cases (_data self)) as [E | (init & x & E & _)].
  - rewrite E. split; [cbn; lia|]. intros i s Hi. discriminate.
  - specialize (Hinv init x E). rewrite E. split.
    + rewrite List.filter_app, (no_open_among_closed _ Hinv).
      cbn. destruct (negb (is_closed x)); cbn; lia.
    + intros i s Hi Hopen. rewrite length_app. cbn.
      destruct (Nat.lt_ge_cases i (length init)) as [Hlt|Hge].
      * rewrite lookup_app_l in Hi by exact Hlt.
        rewrite Forall_forall in Hinv.
        apply list_elem_of_lookup_2 in Hi. apply Hinv in Hi. congruence.
      * apply lookup_lt_Some in Hi. rewrite length_app in Hi.
        cbn in Hi. lia.
Qed.

(** A loaded object lies after the store of the loading side. *)
Lemma sample_value_relocate h2 h (s : Z * option Q * list nat) :
  sample_value (h2 ++ h) (relocate_sample (length h2) s) = sample_value h s.
Proof.
  destruct s as [[t d] ls]. unfold sample_value, relocate_sample.
  cbn [fst snd]. f_equal. rewrite map_map. apply map_ext. intros l.
  rewrite lookup_app_r by lia. f_equal. lia.
Qed.

Lemma deserialize_serialized self now :
  deserialize now (serialized self) = Ok self.
Proof.
  unfold deserialize, serialized.
  rewrite lookup_insert_eq.
  rewrite lookup_insert_ne by discriminate.
  rewrite lookup_singleton_eq. destruct self. reflexivity.
Qed.

(** C6.  [deserialize] of [serialized] gives the log back, origin time
    and entries, whatever the durations, stopped or not.  [load] of a
    file written by [save] gives a log with the same origin time and the
    same entries in the same order: the same time, the same duration or
    None, and channels with the same index and amplitude in the same
    order. *)
Theorem serialization_round_trip :
  (forall self now, deserialize now (serialized self) = Ok self) /\
  (forall fs h self path h2 now,
     let r := load (save fs h self path) h2 now path in
     exists self',
       r.2 = Ok self' /\
       _t0 self' = _t0 self /\
       map (sample_value r.1) (_data self')
       = map (sample_value h) (_data self)).
Proof.
  split; [apply deserialize_serialized|].
  intros fs h self path h2 now r. subst r.
  unfold load, save. rewrite lookup_insert_eq.
  unfold pickle_load, pickle_dump. cbn [p_heap p_obj fst snd].
  exists {| _t0 := _t0 self;
            _data := map (relocate_sample (length h2)) (_data self) |}.
  split; [|split].
  - unfold deserialize, serialized.
    rewrite !lookup_fmap.
    rewrite lookup_insert_eq.
    rewrite lookup_insert_ne by discriminate.
    rewrite lookup_singleton_eq. reflexivity.
  - reflexivity.
  - cbn [_data]. rewrite map_map. apply map_ext. intros s.
    apply sample_value_relocate.
Qed.

(** *** The views *)

Lemma durations_of_closed (l : list (Z * option Q * list nat)) :
  length (omap (fun s : Z * option Q * list nat => s.1.2) l)
  = length (List.filter is_closed l).
Proof.
  induction l as [|[[t [d|]] ch] l IH]; cbn; [reflexivity | | exact IH].
  f_equal. exact IH.
Qed.

(** The amplitudes of channels that are in the store. *)
Lemma amplitudes_row h (channels : list nat) :
  Forall (fun l => (l < length h)%nat) channels ->
  exists row,
    amplitudes h channels = Ok row /\
    length row = length channels /\
    forall c l, channels !! c = Some l ->
      row !! c = amplitude <$> h !! l.
Proof.
  unfold amplitudes.
  induction 1 as [|l ls Hl _ (row & Hrow & Hlen & Hc)].
  - exists []. cbn. split; [reflexivity|]. split; [reflexivity|].
    intros c l Hc. discriminate.
  - destruct (lookup_lt_is_Some_2 h l Hl) as [ch Hch].
    destruct (mapM (fun l => h !! l) ls) as [cs|] eqn:E; [|discriminate].
    injection Hrow as <-.
    exists (amplitude ch :: map amplitude cs).
    cbn. rewrite Hch. cbn. rewrite E. cbn.
    split; [reflexivity|]. split; [cbn in Hlen; lia|].
    intros [|c] l' Hc'.
    + cbn in Hc'. injection Hc' as <-. rewrite Hch. reflexivity.
    + cbn in Hc'. cbn. apply Hc. exact Hc'.
Qed.

(** A row per stopped entry, in the order of the log. *)
Lemma amplitude_rows_closed h (data : list (Z * option Q * list nat)) :
  Forall (fun s : Z * option Q * list nat =>
            Forall (fun l => (l < length h)%nat) s.2) data ->
  exists rows,
    amplitude_rows h data = Ok rows /\
    Forall2 (fun (s : Z * option Q * list nat) row =>
               length row = length s.2 /\
               forall c l, s.2 !! c = Some l ->
                 row !! c = amplitude <$> h !! l)
            (List.filter is_closed data) rows.
Proof.
  induction 1 as [|[[t d] ch] data Hs _ (rows & Hrows & Hall)].
  - exists []. split; [reflexivity | constructor].
  - destruct d as [d|]; cbn [amplitude_rows List.filter is_closed].
    + destruct (amplitudes_row h ch Hs) as (row & Hrow & Hlen & Hc).
      rewrite Hrow, Hrows. exists (row :: rows).
      split; [reflexivity|]. constructor; [|exact Hall].
      split; [exact Hlen | exact Hc].
    + exists rows. split; [exact Hrows | exact Hall].
Qed.

Lemma np_array2_uniform (rows : list (list Q)) n :
  rows <> [] ->
  Forall (fun r => length r = n) rows ->
  np_array2 rows = Ok (Array2 (length rows) n rows).
Proof.
  intros Hne Hall. destruct rows as [|r rest]; [congruence|].
  apply Forall_cons in Hall as [Hr Hrest]. unfold np_array2.
  replace (forallb _ rest) with true; [rewrite Hr; reflexivity|].
  symmetry. apply forallb_forall. intros r' Hin.
  apply Nat.eqb_eq. rewrite Hr.
  rewrite Forall_forall in Hrest. apply Hrest.
  apply list_elem_of_In. exact Hin.
Qed.

(** A column of a matrix whose rows all have that column. *)
Lemma column_lookup (rows : list (list Q)) c :
  Forall (fun r => (c < length r)%nat) rows ->
  forall e, omap (fun r : list Q => r !! c) rows !! e
            = rows !! e ≫= fun r => r !! c.
Proof.
  induction 1 as [|r rows Hr _ IH]; intros e.
  - reflexivity.
  - destruct (lookup_lt_is_Some_2 r c Hr) as [x Hx].
    cbn. rewrite Hx. destruct e as [|e].
    + cbn. rewrite Hx. reflexivity.
    + cbn. apply IH.
Qed.

Lemma item2_transpose (rows : list (list Q)) m n c e :
  Forall (fun r => length r = n) rows ->
  (c < n)%nat ->
  item2 (transpose (Array2 m n rows)) c e = rows !! e ≫= fun r => r !! c.
Proof.
  intros Hall Hc. cbn [transpose item2].
  rewrite list_lookup_fmap, lookup_seq_lt by exact Hc.
  cbn. apply column_lookup.
  eapply Forall_impl; [exact Hall|]. cbn. intros r ->. exact Hc.
Qed.

(** The amplitude matrix of a log whose stopped entries have [n] channels
    each: channels by stopped entries. *)
Lemma amplitude_as_array_uniform h self n :
  well_formed h self ->
  Forall (fun s : Z * option Q * list nat => length s.2 = n)
         (List.filter is_closed (_data self)) ->
  List.filter is_closed (_data self) <> [] ->
  exists a,
    amplitude_as_array h self = Ok a /\
    shape a = [n; length (List.filter is_closed (_data self))] /\
    forall e s c l,
      List.filter is_closed (_data self) !! e = Some s ->
      s.2 !! c = Some l ->
      item2 a c e = amplitude <$> h !! l.
Proof.
  intros Hwf Hn Hne. unfold amplitude_as_array.
  destruct (_data self) as [|s0 data0] eqn:E; [cbn in Hne; congruence|].
  rewrite <- E in *. clear E s0 data0.
  destruct (amplitude_rows_closed h (_data self) Hwf) as (rows & -> & Hall).
  set (closed := List.filter is_closed (_data self)) in *.
  assert (Hlen : length rows = length closed)
    by (symmetry; eapply Forall2_length; eauto).
  assert (Hrows : Forall (fun r => length r = n) rows).
  { apply Forall_lookup_2. intros e row He.
    destruct (Forall2_lookup_r _ _ _ _ _ Hall He) as (s & Hs & Hl & _).
    rewrite Hl. rewrite Forall_lookup in Hn. eapply (Hn e s); exact Hs. }
  rewrite (np_array2_uniform rows n); [| | exact Hrows].
  - eexists. split; [reflexivity|]. split.
    + cbn. rewrite Hlen. reflexivity.
    + intros e s c l He Hc.
      assert (Hcn : (c < n)%nat).
      { rewrite Forall_lookup in Hn. rewrite <- (Hn e s He).
        eapply lookup_lt_Some; eauto. }
      rewrite item2_transpose by assumption.
      destruct (Forall2_lookup_l _ _ _ _ _ Hall He) as (row & Hr & _ & Hv).
      rewrite Hr. cbn. apply Hv. exact Hc.
  - intros ->. cbn in Hlen. destruct closed; [congruence | discriminate].
Qed.

Lemma omap_duration_closed (l : list (Z * option Q * list nat)) :
  omap (fun s : Z * option Q * list nat => s.1.2) (List.filter is_closed l)
  = omap (fun s : Z * option Q * list nat => s.1.2) l.
Proof.
  induction l as [|[[t [d|]] ch] l IH]; cbn; [reflexivity | | exact IH].
  f_equal. exact IH.
Qed.

(** C7.  The three views keep the entries that have a duration, in the
    order of the log: the elapsed times and the durations are those of
    these entries, and, when these entries have [n] channels each, the
    amplitude matrix has [n] rows and one column per such entry, with
    the amplitude of channel [c] of entry [e] at [(c, e)].  On an empty
    log every view is an array without element, and none raises.  For a
    log of two stopped entries of two channels each followed by an entry
    that is not stopped, the durations have shape (2,) and the amplitude
    matrix has shape (2, 2). *)
Theorem views_keep_closed_entries :
  forall h self,
    let closed := List.filter is_closed (_data self) in
    time self
    = Array1 (map (fun s : Z * option Q * list nat =>
                     total_seconds (s.1.1 - _t0 self)) closed) /\
    elements (duration_as_array self)
    = omap (fun s : Z * option Q * list nat => s.1.2) closed /\
    length (elements (duration_as_array self)) = length closed /\
    (forall n,
       well_formed h self ->
       Forall (fun s : Z * option Q * list nat => length s.2 = n) closed ->
       (0 < length closed)%nat ->
       exists a,
         amplitude_as_array h self = Ok a /\
         shape a = [n; length closed] /\
         forall e s c l,
           closed !! e = Some s -> s.2 !! c = Some l ->
           item2 a c e = amplitude <$> h !! l) /\
    (_data self = [] ->
       size (time self) = 0%nat /\
       size (duration_as_array self) = 0%nat /\
       exists a, amplitude_as_array h self = Ok a /\ size a = 0%nat) /\
    (forall t1 d1 a1 b1 t2 d2 a2 b2 t3 channels3,
       _data self = [(t1, Some d1, [a1; b1]); (t2, Some d2, [a2; b2]);
                     (t3, None, channels3)] ->
       well_formed h self ->
       shape (duration_as_array self) = [2%nat] /\
       exists a, amplitude_as_array h self = Ok a /\
                 shape a = [2%nat; 2%nat]).
Proof.
  intros h self closed.
  assert (Hdur : elements (duration_as_array self)
                 = omap (fun s : Z * option Q * list nat => s.1.2) closed).
  { subst closed. rewrite omap_duration_closed. unfold duration_as_array.
    destruct (_data self); reflexivity. }
  split; [|split; [|split; [|split; [|split]]]].
  - unfold time. subst closed. destruct (_data self); reflexivity.
  - exact Hdur.
  - rewrite Hdur. subst closed. rewrite omap_duration_closed.
    apply durations_of_closed.
  - intros n Hwf Hn Hpos. apply amplitude_as_array_uniform; try assumption.
    intros E. fold closed in E. rewrite E in Hpos. cbn in Hpos. lia.
  - intros E. unfold time, duration_as_array, amplitude_as_array.
    rewrite E. cbn. split; [reflexivity|]. split; [reflexivity|].
    eexists. split; reflexivity.
  - intros t1 d1 a1 b1 t2 d2 a2 b2 t3 ch3 E Hwf. split.
    + unfold duration_as_array. rewrite E. reflexivity.
    + destruct (amplitude_as_array_uniform h self 2%nat Hwf)
        as (a & Ha & Hs & _).
      * rewrite E. cbn. repeat constructor.
      * rewrite E. cbn. discriminate.
      * exists a. split; [exact Ha|]. rewrite Hs, E. reflexivity.
Qed.

(** *** [sample_block] *)

Lemma getitem_int_nonneg {A} (l : list A) i x :
  l !! i = Some x -> getitem_int l (Z.of_nat i) = Ok x.
Proof.
  intros H. pose proof (lookup_lt_Some _ _ _ H) as Hlt.
  unfold getitem_int.
  destruct (Z.ltb_spec (Z.of_nat i) 0); [lia|].
  destruct (Z.ltb_spec (Z.of_nat i) 0); [lia|].
  destruct (Z.leb_spec (Z.of_nat (length l)) (Z.of_nat i)); [lia|].
  cbn. rewrite Nat2Z.id, H. reflexivity.
Qed.

Lemma getitem_int_negative {A} (l : list A) i x :
  l !! i = Some x ->
  getitem_int l (Z.of_nat i - Z.of_nat (length l)) = Ok x.
Proof.
  intros H. pose proof (lookup_lt_Some _ _ _ H) as Hlt.
  unfold getitem_int.
  destruct (Z.ltb_spec (Z.of_nat i - Z.of_nat (length l)) 0); [|lia].
  replace (Z.of_nat i - Z.of_nat (length l) + Z.of_nat (length l))
    with (Z.of_nat i) by lia.
  destruct (Z.ltb_spec (Z.of_nat i) 0); [lia|].
  destruct (Z.leb_spec (Z.of_nat (length l)) (Z.of_nat i)); [lia|].
  cbn. rewrite Nat2Z.id, H. reflexivity.
Qed.

(** The elements at [a+j, a+j+1, ...], [m] of them. *)
Lemma slice_run {A} (l : list A) a m :
  forall j, (a + j + m <= length l)%nat ->
    omap (fun k => l !! Z.to_nat (Z.of_nat a + Z.of_nat k * 1)) (seq j m)
    = take m (drop (a + j) l).
Proof.
  induction m as [|m IH]; intros j Hlen.
  - reflexivity.
  - destruct (lookup_lt_is_Some_2 l (a + j)) as [x Hx]; [lia|].
    cbn [seq]. cbn [omap list_omap].
    replace (Z.to_nat (Z.of_nat a + Z.of_nat j * 1)) with (a + j)%nat by lia.
    rewrite Hx. rewrite (drop_S _ _ _ Hx). cbn [take]. f_equal.
    rewrite IH by lia. f_equal. f_equal. lia.
Qed.

Lemma getitem_slice_range {A} (l : list A) a b :
  (a <= b <= length l)%nat ->
  getitem_slice l (Some (Z.of_nat a)) (Some (Z.of_nat b)) None
  = Ok (take (b - a) (drop a l)).
Proof.
  intros Hab. unfold getitem_slice, slice_indices, adjust_bound.
  cbn [default]. change (1 =? 0) with false. change (1 <? 0) with false.
  cbv iota.
  destruct (Z.ltb_spec (Z.of_nat a) 0); [lia|].
  destruct (Z.ltb_spec (Z.of_nat b) 0); [lia|].
  assert (Ha : (if Z.of_nat (length l) <=? Z.of_nat a
                then Z.of_nat (length l) else Z.of_nat a) = Z.of_nat a)
    by (destruct (Z.leb_spec (Z.of_nat (length l)) (Z.of_nat a)); lia).
  assert (Hb : (if Z.of_nat (length l) <=? Z.of_nat b
                then Z.of_nat (length l) else Z.of_nat b) = Z.of_nat b)
    by (destruct (Z.leb_spec (Z.of_nat (length l)) (Z.of_nat b)); lia).
  rewrite Ha, Hb.
  assert (Hc : Z.to_nat (if Z.of_nat a <? Z.of_nat b
                         then (Z.of_nat b - Z.of_nat a - 1) / 1 + 1 else 0)
               = (b - a)%nat).
  { destruct (Z.ltb_spec (Z.of_nat a) (Z.of_nat b));
      [rewrite Z.div_1_r|]; lia. }
  rewrite Hc. f_equal.
  rewrite (slice_run l a (b - a) 0) by lia.
  f_equal. f_equal. lia.
Qed.

Lemma getitem_slice_whole {A} (l : list A) :
  getitem_slice l None None None = Ok l.
Proof.
  unfold getitem_slice, slice_indices.
  cbn [default]. change (1 =? 0) with false. change (1 <? 0) with false.
  cbv iota.
  assert (Hc : Z.to_nat (if 0 <? Z.of_nat (length l)
                         then (Z.of_nat (length l) - 0 - 1) / 1 + 1 else 0)
               = length l).
  { destruct (Z.ltb_spec 0 (Z.of_nat (length l)));
      [rewrite Z.div_1_r|]; lia. }
  rewrite Hc. f_equal.
  transitivity (take (length l) (drop (0 + 0) l)).
  - apply (slice_run l 0 (length l) 0). lia.
  - apply firstn_all.
Qed.

(** The bounds that [slice.indices] computes. *)
Lemma adjust_bound_range n step i :
  0 <= n ->
  (0 < step -> 0 <= adjust_bound n step i <= n) /\
  (step < 0 -> -1 <= adjust_bound n step i <= n - 1).
Proof.
  intros Hn. unfold adjust_bound.
  destruct (Z.ltb_spec i 0); [destruct (Z.ltb_spec (i + n) 0)|
                              destruct (Z.leb_spec n i)];
    destruct (Z.ltb_spec step 0); split; intros; lia.
Qed.

(** The elements at indices that are all in the list. *)
Lemma omap_lookup_seq {A} (l : list A) (idx : nat -> nat) m :
  forall j,
    (forall k, (j <= k < j + m)%nat -> (idx k < length l)%nat) ->
    length (omap (fun k => l !! idx k) (seq j m)) = m /\
    forall k, (k < m)%nat ->
      omap (fun k => l !! idx k) (seq j m) !! k = l !! idx (j + k)%nat.
Proof.
  induction m as [|m IH]; intros j Hidx.
  - split; [reflexivity | intros; lia].
  - destruct (lookup_lt_is_Some_2 l (idx j)) as [x Hx]; [apply Hidx; lia|].
    destruct (IH (S j)) as [Hlen Hk]; [intros k Hk; apply Hidx; lia|].
    cbn [seq]. cbn [omap list_omap]. rewrite Hx.
    split; [cbn; f_equal; exact Hlen|].
    intros [|k] Hlt.
    + cbn. rewrite Nat.add_0_r. symmetry. exact Hx.
    + cbn. rewrite Hk by lia. f_equal. f_equal. lia.
Qed.

(** The indices of a slice are indices of the list. *)
Lemma slice_indices_in_range n start stop step first stride count :
  0 <= n ->
  slice_indices n start stop step = Ok (first, stride, count) ->
  stride <> 0 /\
  Z.of_nat count <= n /\
  forall k, (k < count)%nat -> 0 <= first + Z.of_nat k * stride < n.
Proof.
  intros Hn. unfold slice_indices.
  set (st := default 1 step).
  destruct (Z.eqb_spec st 0) as [|Hst]; [discriminate|].
  set (f := match start with
            | Some s => adjust_bound n st s
            | None => if st <? 0 then n - 1 else 0
            end).
  set (b := match stop with
            | Some s => adjust_bound n st s
            | None => if st <? 0 then -1 else n
            end).
  intros H. injection H as <- <- <-.
  split; [exact Hst|].
  destruct (Z.ltb_spec st 0) as [Hneg|Hpos].
  - assert (Hf : -1 <= f <= n - 1).
    { subst f. destruct start as [s|];
        [apply adjust_bound_range; lia | lia]. }
    assert (Hb : -1 <= b <= n - 1).
    { subst b. destruct stop as [s|];
        [apply adjust_bound_range; lia | lia]. }
    destruct (Z.ltb_spec b f) as [Hbf|Hbf]; [|cbn; split; [lia | intros; lia]].
    pose proof (Z.mul_div_le (f - b - 1) (- st) ltac:(lia)) as Hq.
    assert (Hq0 : 0 <= (f - b - 1) / - st) by (apply Z.div_pos; lia).
    assert (Hq1 : (f - b - 1) / - st <= f - b - 1)
      by (apply Z.div_le_upper_bound; nia).
    split; [lia|]. intros k Hk. nia.
  - assert (Hf : 0 <= f <= n).
    { subst f. destruct start as [s|];
        [apply adjust_bound_range; lia | lia]. }
    assert (Hb : 0 <= b <= n).
    { subst b. destruct stop as [s|];
        [apply adjust_bound_range; lia | lia]. }
    destruct (Z.ltb_spec f b) as [Hbf|Hbf]; [|cbn; split; [lia | intros; lia]].
    pose proof (Z.mul_div_le (b - f - 1) st ltac:(lia)) as Hq.
    assert (Hq0 : 0 <= (b - f - 1) / st) by (apply Z.div_pos; lia).
    assert (Hq1 : (b - f - 1) / st <= b - f - 1)
      by (apply Z.div_le_upper_bound; nia).
    split; [lia|]. intros k Hk. nia.
Qed.

Lemma getitem_slice_elements {A} (l : list A) start stop step
    first stride count :
  slice_indices (Z.of_nat (length l)) start stop step
  = Ok (first, stride, count) ->
  exists r,
    getitem_slice l start stop step = Ok r /\
    length r = count /\
    forall k, (k < count)%nat ->
      r !! k = l !! Z.to_nat (first + Z.of_nat k * stride).
Proof.
  intros H. unfold getitem_slice. rewrite H.
  destruct (slice_indices_in_range _ _ _ _ _ _ _
              (Nat2Z.is_nonneg (length l)) H) as (_ & _ & Hk).
  destruct (omap_lookup_seq l
              (fun k => Z.to_nat (first + Z.of_nat k * stride)) count 0%nat)
    as [Hlen Hget].
  { intros k Hlt. specialize (Hk k ltac:(lia)). lia. }
  eexists. split; [reflexivity|]. split; [exact Hlen|].
  intros k Hlt. rewrite Hget by exact Hlt. reflexivity.
Qed.

(** With a step of 1 a bound is brought into range in the usual way: a
    negative bound counts from the end, and both are cut at the ends of
    the list. *)
Lemma adjust_bound_forward n i :
  0 <= n ->
  adjust_bound n 1 i = if i <? 0 then Z.max 0 (i + n) else Z.min i n.
Proof.
  intros Hn. unfold adjust_bound. change (1 <? 0) with false. cbv iota.
  destruct (Z.ltb_spec i 0).
  - destruct (Z.ltb_spec (i + n) 0); lia.
  - destruct (Z.leb_spec n i); lia.
Qed.

(** [l[start:stop]] for any bounds. *)
Lemma getitem_slice_contiguous {A} (l : list A) start stop :
  let n := Z.of_nat (length l) in
  let norm := fun i => if i <? 0 then Z.max 0 (i + n) else Z.min i n in
  let a := from_option norm 0 start in
  let b := from_option norm n stop in
  getitem_slice l start stop None
  = Ok (take (Z.to_nat (b - a)) (drop (Z.to_nat a) l)).
Proof.
  intros n norm a b.
  assert (Hs : slice_indices n start stop None
               = Ok (a, 1, Z.to_nat (b - a))).
  { unfold slice_indices. change (default 1 None) with 1. cbv zeta.
    change (1 =? 0) with false. change (1 <? 0) with false. cbv iota.
    assert (Ha : match start with
                 | Some s => adjust_bound n 1 s
                 | None => 0
                 end = a).
    { subst a norm. destruct start as [s|]; [|reflexivity].
      apply adjust_bound_forward. subst n. lia. }
    assert (Hb : match stop with
                 | Some s => adjust_bound n 1 s
                 | None => n
                 end = b).
    { subst b norm. destruct stop as [s|]; [|reflexivity].
      apply adjust_bound_forward. subst n. lia. }
    rewrite Ha, Hb. do 2 f_equal.
    destruct (Z.ltb_spec a b); [rewrite Z.div_1_r|]; lia. }
  destruct (getitem_slice_elements l _ _ _ _ _ _ Hs) as (r & -> & Hlen & Hget).
  f_equal. apply list_eq. intros k.
  assert (Ha0 : 0 <= a).
  { subst a norm. destruct start as [s|]; cbn; [|lia].
    destruct (Z.ltb_spec s 0); subst n; lia. }
  destruct (Nat.lt_ge_cases k (Z.to_nat (b - a))) as [Hk|Hk].
  - rewrite Hget by exact Hk.
    rewrite lookup_take_lt by exact Hk. rewrite lookup_drop.
    f_equal. lia.
  - rewrite lookup_take_ge by exact Hk.
    apply lookup_ge_None. lia.
Qed.

(** [l[::step]] for a positive step. *)
Lemma getitem_slice_stepped {A} (l : list A) st :
  0 < st ->
  (0 < length l)%nat ->
  exists r,
    getitem_slice l None None (Some st) = Ok r /\
    length r = Z.to_nat ((Z.of_nat (length l) - 1) / st + 1) /\
    forall k, (k < length r)%nat -> r !! k = l !! (k * Z.to_nat st)%nat.
Proof.
  intros Hst Hpos. set (n := Z.of_nat (length l)).
  assert (Hs : slice_indices n None None (Some st)
               = Ok (0, st, Z.to_nat ((n - 1) / st + 1))).
  { unfold slice_indices. change (default 1 (Some st)) with st. cbv zeta.
    destruct (Z.eqb_spec st 0); [lia|].
    destruct (Z.ltb_spec st 0); [lia|].
    destruct (Z.ltb_spec 0 n); [|subst n; lia].
    replace (n - 0 - 1) with (n - 1) by lia. reflexivity. }
  destruct (getitem_slice_elements l _ _ _ _ _ _ Hs) as (r & Hr & Hlen & Hget).
  exists r. split; [exact Hr|]. split; [exact Hlen|].
  intros k Hk. rewrite Hget by lia. f_equal.
  rewrite Z.add_0_l, Z2Nat.inj_mul, Nat2Z.id by lia. reflexivity.
Qed.

(** C10.  On an empty log [sample_block] returns None for every index and
    every slice.  On a log with entries it returns what is stored: for an
    index, the entry at the index, counted from the start or, with a
    negative index, from the end; for [log[start:stop]], whatever the
    bounds, the entries from [start] to [stop], a negative bound counting
    from the end and both being cut at the ends of the log, so [log[-1:]]
    is the last entry alone; for [log[::step]] with a positive step, the
    entries at 0, step, 2 step, ...; and for any slice with a step other
    than 0, as many entries as [slice.indices] gives, the k-th being the
    entry stored at [first + k * step].  A slice with a step of 0 raises
    ValueError. *)
Theorem sample_block_result :
  (forall self idx, _data self = [] -> sample_block self idx = Ok None) /\
  (forall self i s,
     _data self !! i = Some s ->
     sample_block self (Int (Z.of_nat i)) = Ok (Some (One s)) /\
     sample_block self (Int (Z.of_nat i - Z.of_nat (length (_data self))))
     = Ok (Some (One s))) /\
  (forall self,
     (0 < length (_data self))%nat ->
     sample_block self (Slice None None None)
     = Ok (Some (Many (_data self)))) /\
  (forall self a b,
     (0 < length (_data self))%nat ->
     (a <= b <= length (_data self))%nat ->
     sample_block self (Slice (Some (Z.of_nat a)) (Some (Z.of_nat b)) None)
     = Ok (Some (Many (take (b - a) (drop a (_data self)))))) /\
  (forall self start stop,
     (0 < length (_data self))%nat ->
     let n := Z.of_nat (length (_data self)) in
     let norm := fun i => if i <? 0 then Z.max 0 (i + n) else Z.min i n in
     let a := from_option norm 0 start in
     let b := from_option norm n stop in
     sample_block self (Slice start stop None)
     = Ok (Some (Many (take (Z.to_nat (b - a))
                            (drop (Z.to_nat a) (_data self)))))) /\
  (forall self s,
     last (_data self) = Some s ->
     sample_block self (Slice (Some (-1)) None None) = Ok (Some (Many [s]))) /\
  (forall self st,
     (0 < length (_data self))%nat ->
     0 < st ->
     exists l,
       sample_block self (Slice None None (Some st)) = Ok (Some (Many l)) /\
       length l
       = Z.to_nat ((Z.of_nat (length (_data self)) - 1) / st + 1) /\
       forall k, (k < length l)%nat ->
         l !! k = _data self !! (k * Z.to_nat st)%nat) /\
  (forall self start stop step,
     (0 < length (_data self))%nat ->
     let n := Z.of_nat (length (_data self)) in
     (step = Some 0 ->
        sample_block self (Slice start stop step)
        = Raise (ValueError "slice step cannot be zero")) /\
     (step <> Some 0 ->
        exists first stride count l,
          slice_indices n start stop step = Ok (first, stride, count) /\
          sample_block self (Slice start stop step) = Ok (Some (Many l)) /\
          length l = count /\
          (count <= length (_data self))%nat /\
          forall k, (k < count)%nat ->
            0 <= first + Z.of_nat k * stride < n /\
            l !! k
            = _data self !! Z.to_nat (first + Z.of_nat k * stride))).
Proof.
  split; [|split; [|split; [|split; [|split; [|split; [|split]]]]]].
  - intros self idx E. unfold sample_block. rewrite E. reflexivity.
  - intros self i s H. unfold sample_block.
    rewrite (getitem_int_nonneg _ _ _ H), (getitem_int_negative _ _ _ H).
    destruct (_data self); [discriminate|]. split; reflexivity.
  - intros self Hpos. unfold sample_block.
    rewrite getitem_slice_whole.
    destruct (_data self); [cbn in Hpos; lia | reflexivity].
  - intros self a b Hpos Hab. unfold sample_block.
    rewrite (getitem_slice_range _ _ _ Hab).
    destruct (_data self); [cbn in Hpos; lia | reflexivity].
  - intros self start stop Hpos n norm a b. unfold sample_block.
    rewrite (getitem_slice_contiguous (_data self) start stop).
    destruct (_data self); [cbn in Hpos; lia | reflexivity].
  - intros self s Hlast. apply last_Some in Hlast as [init E].
    assert (Hpos : (0 < length (_data self))%nat)
      by (rewrite E, length_app; cbn; lia).
    unfold sample_block.
    rewrite (getitem_slice_contiguous (_data self) (Some (-1)) None).
    destruct (_data self) as [|s0 rest] eqn:E0; [cbn in Hpos; lia|].
    rewrite <- E0 in *. clear E0 s0 rest. rewrite E. do 3 f_equal.
    cbn [from_option]. change (-1 <? 0) with true. cbv iota.
    rewrite length_app. cbn [length].
    replace (Z.max 0 (-1 + Z.of_nat (length init + 1)))
      with (Z.of_nat (length init)) by lia.
    replace (Z.to_nat (Z.of_nat (length init + 1) - Z.of_nat (length init)))
      with 1%nat by lia.
    rewrite Nat2Z.id, drop_app_length. reflexivity.
  - intros self st Hpos Hst. unfold sample_block.
    destruct (getitem_slice_stepped (_data self) st Hst Hpos)
      as (r & Hr & Hlen & Hget).
    rewrite Hr. exists r.
    destruct (_data self); [cbn in Hpos; lia|].
    split; [reflexivity|]. split; [exact Hlen | exact Hget].
  - intros self start stop step Hpos n. subst n. unfold sample_block.
    destruct (_data self) as [|s0 data0] eqn:E; [cbn in Hpos; lia|].
    rewrite <- E in *. clear E s0 data0.
    set (n := Z.of_nat (length (_data self))) in *. split.
    + intros ->. reflexivity.
    + intros Hstep.
      destruct (slice_indices n start stop step)
        as [[[first stride] count]|e] eqn:Hs.
      * destruct (slice_indices_in_range _ _ _ _ _ _ _
                    (Nat2Z.is_nonneg (length (_data self))) Hs)
          as (_ & Hc & Hk).
        destruct (getitem_slice_elements (_data self) _ _ _ _ _ _ Hs)
          as (r & Hr & Hlen & Hget).
        exists first, stride, count, r. rewrite Hr.
        split; [reflexivity|]. split; [reflexivity|]. split; [exact Hlen|].
        split; [lia|]. intros k Hlt. split; [apply Hk; exact Hlt|].
        apply Hget. exact Hlt.
      * exfalso. revert Hs. unfold slice_indices. cbv zeta.
        destruct step as [st|].
        -- change (default 1 (Some st)) with st.
           destruct (Z.eqb_spec st 0) as [->|]; [congruence | discriminate].
        -- discriminate.
Qed.

End RehastimProperties.

(** * The properties on examples *)

(** C3 fails on the code.  A log with one entry of one channel (index 1,
    amplitude 10); [add] without channels appends an entry that holds the
    same [Channel] object, not a copy: after [channel.amplitude = 99] on
    the channel of the new entry, the amplitude in the earlier entry is 99
    as well. *)
Theorem add_without_channels_aliases :
  let s1 := Rehastim.add [] (Rehastim.__init__ 0) 1000000 (Some (1 # 2)%Q)
              (Some [Rehastim.OfChannel (Rehastim.mkChannel 1 (10 # 1)%Q)]) in
  let s2 := Rehastim.add s1.1.1 s1.1.2 2000000 None None in
  let h2 := s2.1.1 in
  let log := s2.1.2 in
  let h3 := Rehastim.set_amplitude h2 0%nat (99 # 1)%Q in
  s2.2 = Ok tt /\
  Rehastim.sample_value h2 <$> Rehastim._data log !! 0%nat
  = Some (1000000, Some (1 # 2)%Q,
          [Some (Rehastim.mkChannel 1 (10 # 1)%Q)]) /\
  Rehastim.sample_value h2 <$> Rehastim._data log !! 1%nat
  = Some (2000000, None, [Some (Rehastim.mkChannel 1 (10 # 1)%Q)]) /\
  (Rehastim._data log !! 1%nat ≫= fun s => s.2 !! 0%nat) = Some 0%nat /\
  Rehastim.sample_value h3 <$> Rehastim._data log !! 0%nat
  = Some (1000000, Some (1 # 2)%Q,
          [Some (Rehastim.mkChannel 1 (99 # 1)%Q)]).
Proof. vm_compute. repeat split. Qed.

(** A log whose only entry, recorded at 1 s, is not stopped; the clock says
    3.5 s. *)
Lemma stop_undefined_frame_witness :
  let self := {| Rehastim._t0 := 0;
                 Rehastim._data := [(1000000, None, [0%nat])] |} in
  let now := 3500000 in
  last (Rehastim._data self) = Some (1000000, None, [0%nat]) /\
  1000000 <= now /\
  last (Rehastim._data
          (Rehastim.stop_undefined_stimulation_duration self now).1)
  = Some (1000000, Some (Rehastim.total_seconds (now - 1000000)), [0%nat]) /\
  (0 <= Rehastim.total_seconds (now - 1000000))%Q.
Proof.
  intros self now.
  destruct (stop_undefined_frame self now) as (_ & _ & _ & _ & _ & H).
  destruct (H 1000000 [0%nat] eq_refl) as (Hl & _ & Hn).
  split; [reflexivity|]. split; [subst now; lia|].
  split; [exact Hl|]. apply Hn. subst now. lia.
Defined.

(** C4 fails on the code.  The only entry was recorded at 10 s and is not
    stopped; the clock, set back, says 5 s: the duration written is -5. *)
Lemma stop_undefined_negative_duration :
  let self := {| Rehastim._t0 := 0;
                 Rehastim._data := [(10000000, None, [0%nat])] |} in
  let r := Rehastim.stop_undefined_stimulation_duration self 5000000 in
  last (Rehastim._data r.1)
  = Some (10000000, Some (Qmake (-5000000) 1000000), [0%nat]) /\
  (Qmake (-5000000) 1000000 < 0)%Q.
Proof. split; [reflexivity|]. unfold Qlt. cbn. lia. Qed.

(** A log built with a stop between the two calls of [add]. *)
Lemma stopping_log_one_open_entry_witness :
  let s1 := Rehastim.add [] (Rehastim.__init__ 0) 1000000 None
              (Some [Rehastim.OfChannel (Rehastim.mkChannel 1 (10 # 1)%Q)]) in
  let log2 :=
    (Rehastim.stop_undefined_stimulation_duration s1.1.2 1500000).1 in
  let s3 := Rehastim.add s1.1.1 log2 2000000 None None in
  Rehastim.reachable_stopping s3.1.1 s3.1.2 /\
  (length (Rehastim.open_entries s3.1.2) <= 1)%nat /\
  forall i s, Rehastim._data s3.1.2 !! i = Some s ->
    Rehastim.is_closed s = false -> S i = length (Rehastim._data s3.1.2).
Proof.
  intros s1 log2 s3.
  assert (Hr : Rehastim.reachable_stopping s3.1.1 s3.1.2).
  { eapply (Rehastim.stopping_add s1.1.1 log2 2000000 None None);
      [| reflexivity | reflexivity].
    apply Rehastim.stopping_stop.
    eapply (Rehastim.stopping_add [] (Rehastim.__init__ 0) 1000000 None
              (Some [Rehastim.OfChannel (Rehastim.mkChannel 1 (10 # 1)%Q)]));
      [apply Rehastim.stopping_new | reflexivity | reflexivity]. }
  split; [exact Hr|].
  exact (stopping_log_one_open_entry s3.1.1 s3.1.2 Hr).
Defined.

(** C5 fails on the code.  Two calls of [add] with [duration=None] and no
    stop between them: both entries are open, and the first is not the
    last. *)
Lemma two_open_entries_reachable :
  let s1 := Rehastim.add [] (Rehastim.__init__ 0) 1000000 None
              (Some [Rehastim.OfChannel (Rehastim.mkChannel 1 (10 # 1)%Q)]) in
  let s2 := Rehastim.add s1.1.1 s1.1.2 2000000 None None in
  Rehastim.reachable s2.1.1 s2.1.2 /\
  length (Rehastim.open_entries s2.1.2) = 2%nat /\
  Rehastim._data s2.1.2 !! 0%nat = Some (1000000, None, [0%nat]) /\
  length (Rehastim._data s2.1.2) = 2%nat.
Proof.
  intros s1 s2. split.
  - eapply (Rehastim.reachable_add s1.1.1 s1.1.2 2000000 None None);
      [| reflexivity].
    eapply (Rehastim.reachable_add [] (Rehastim.__init__ 0) 1000000 None
              (Some [Rehastim.OfChannel (Rehastim.mkChannel 1 (10 # 1)%Q)]));
      [apply Rehastim.reachable_new | reflexivity].
  - vm_compute. repeat split.
Qed.

(** Two stopped entries of two channels each, durations 0.5 and 0.3, and an
    entry that is not stopped. *)
Lemma views_keep_closed_entries_witness :
  let h := [Rehastim.mkChannel 1 (10 # 1)%Q; Rehastim.mkChannel 2 (20 # 1)%Q] in
  let self := {| Rehastim._t0 := 0;
                 Rehastim._data :=
                   [(1000000, Some (1 # 2)%Q, [0%nat; 1%nat]);
                    (2000000, Some (3 # 10)%Q, [0%nat; 1%nat]);
                    (3000000, None, [0%nat; 1%nat])] |} in
  Rehastim.well_formed h self /\
  Rehastim.shape (Rehastim.duration_as_array self) = [2%nat] /\
  exists a, Rehastim.amplitude_as_array h self = Ok a /\
            Rehastim.shape a = [2%nat; 2%nat].
Proof.
  intros h self.
  assert (Hwf : Rehastim.well_formed h self).
  { unfold Rehastim.well_formed. cbn. repeat constructor. }
  split; [exact Hwf|].
  destruct (views_keep_closed_entries h self) as (_ & _ & _ & _ & _ & H).
  exact (H 1000000 (1 # 2)%Q 0%nat 1%nat 2000000 (3 # 10)%Q 0%nat 1%nat
           3000000 [0%nat; 1%nat] eq_refl Hwf).
Defined.

(** A log of two entries: the entry at index 1 is also the entry at
    index -1.  A log of three entries: [log[-1:]], [log[1:]], [log[:-1]],
    [log[-5:2]] and [log[::2]]. *)
Lemma sample_block_result_witness :
  let self := {| Rehastim._t0 := 0;
                 Rehastim._data :=
                   [(1000000, Some (1 # 2)%Q, [0%nat]);
                    (2000000, None, [0%nat])] |} in
  let e1 := (1000000, Some (1 # 2)%Q, [0%nat]) in
  let e2 := (2000000, Some (3 # 10)%Q, [0%nat]) in
  let e3 := (3000000, None, [0%nat]) in
  let log := {| Rehastim._t0 := 0; Rehastim._data := [e1; e2; e3] |} in
  Rehastim._data self !! 1%nat = Some (2000000, None, [0%nat]) /\
  Rehastim.sample_block self (Rehastim.Int 1)
  = Ok (Some (Rehastim.One (2000000, None, [0%nat]))) /\
  Rehastim.sample_block self (Rehastim.Int (-1))
  = Ok (Some (Rehastim.One (2000000, None, [0%nat]))) /\
  (0 < length (Rehastim._data log))%nat /\
  last (Rehastim._data log) = Some e3 /\
  Rehastim.sample_block log (Rehastim.Slice (Some (-1)) None None)
  = Ok (Some (Rehastim.Many [e3])) /\
  Rehastim.sample_block log (Rehastim.Slice (Some 1) None None)
  = Ok (Some (Rehastim.Many [e2; e3])) /\
  Rehastim.sample_block log (Rehastim.Slice None (Some (-1)) None)
  = Ok (Some (Rehastim.Many [e1; e2])) /\
  Rehastim.sample_block log (Rehastim.Slice (Some (-5)) (Some 2) None)
  = Ok (Some (Rehastim.Many [e1; e2])) /\
  0 < 2 /\
  exists l,
    Rehastim.sample_block log (Rehastim.Slice None None (Some 2))
    = Ok (Some (Rehastim.Many l)) /\
    length l = 2%nat /\
    forall k, (k < length l)%nat ->
      l !! k = Rehastim._data log !! (k * 2)%nat.
Proof.
  intros self e1 e2 e3 log.
  assert (Hpos : (0 < length (Rehastim._data log))%nat) by (cbn; lia).
  assert (Hst : 0 < 2) by lia.
  destruct sample_block_result as (_ & Hint & _ & _ & Hcut & Hlast & Hstep & _).
  split; [reflexivity|].
  split; [exact (proj1 (Hint self 1%nat (2000000, None, [0%nat]) eq_refl))|].
  split; [exact (proj2 (Hint self 1%nat (2000000, None, [0%nat]) eq_refl))|].
  split; [exact Hpos|]. split; [reflexivity|].
  split; [exact (Hlast log e3 eq_refl)|].
  split; [exact (Hcut log (Some 1) None Hpos)|].
  split; [exact (Hcut log None (Some (-1)) Hpos)|].
  split; [exact (Hcut log (Some (-5)) (Some 2) Hpos)|].
  split; [exact Hst|].
  exact (Hstep log 2 Hpos Hst).
Defined.

(** * More on the stride-based decision engine *)

Section StrideBasedTicks.

Import Stimulation.

Variable Data : Type.
Variable percentage_of_stride : Q -> Data -> Side -> Q.

(** A tick whose answer has as many values as the state: the state becomes
    the answer, and the commands are those of the table, channel by
    channel. *)
Lemma stimulation_duration_same_length (self : StrideBasedStimulation) t data :
  let should := wanted percentage_of_stride self t data in
  let are := size_state (_are_stimulating self) should in
  length should = length are ->
  stimulation_duration percentage_of_stride self t data
  = ({| _condition := _condition self; _are_stimulating := should |},
     Ok (zip_with (fun want was => (spec_table want was).1) should are)).
Proof.
  intros should are Hlen.
  rewrite (stimulation_duration_loop Data percentage_of_stride).
  cbn zeta. fold should. fold are.
  destruct (channels_loop_state should (length should) 0%nat are [])
    as (Hl & Hin & _); [lia|].
  destruct (channels_loop_returns should (length should) 0%nat are [])
    as (out' & Hr & Hlo & Hc); [lia | lia |].
  f_equal.
  - f_equal. apply list_eq. intros i.
    destruct (should !! i) as [want|] eqn:Hw.
    + apply Hin; [apply lookup_lt_Some in Hw; lia | exact Hw |].
      apply lookup_lt_is_Some_2. apply lookup_lt_Some in Hw. lia.
    + apply lookup_ge_None. apply lookup_ge_None in Hw. lia.
  - rewrite Hr. change ([] ++ out') with out'. f_equal.
    apply list_eq. intros i. rewrite lookup_zip_with.
    destruct (should !! i) as [want|] eqn:Hw.
    + destruct (lookup_lt_is_Some_2 are i) as [was Ha];
        [apply lookup_lt_Some in Hw; lia|].
      rewrite Ha. cbn. replace i with (i - 0)%nat at 1 by lia.
      apply Hc; [apply lookup_lt_Some in Hw; lia | exact Hw | exact Ha].
    + cbn. apply lookup_ge_None. apply lookup_ge_None in Hw. lia.
Qed.

Lemma size_state_same (l : list bool) : size_state l l = l.
Proof. destruct l; reflexivity. Qed.

Lemma table_diagonal (l : list bool) :
  zip_with (fun want was => (spec_table want was).1) l l
  = replicate (length l) None.
Proof.
  induction l as [|b l IH]; [reflexivity|].
  cbn [zip_with length replicate]. rewrite IH. destruct b; reflexivity.
Qed.

(** When the answer of the predicate has as many values as the stored
    state (so at every first call), the call returns one command per
    channel and stores the answer itself; a channel gets a command exactly
    when what is wanted differs from what is stored: 0 when it is wanted,
    -1 when it is not. *)
Theorem stride_state_follows_answer :
  forall (self : StrideBasedStimulation) t data,
    let should := wanted percentage_of_stride self t data in
    let are := size_state (_are_stimulating self) should in
    let r := stimulation_duration percentage_of_stride self t data in
    length should = length are ->
    _are_stimulating r.1 = should /\
    exists out,
      r.2 = Ok out /\ length out = length should /\
      forall i want was,
        should !! i = Some want -> are !! i = Some was ->
        (out !! i = Some None <-> want = was) /\
        (out !! i = Some (Some 0) <-> want = true /\ was = false) /\
        (out !! i = Some (Some (-1)) <-> want = false /\ was = true).
Proof.
  intros self t data should are r Hlen. subst r.
  rewrite (stimulation_duration_same_length self t data Hlen).
  fold should. fold are. cbn [fst snd _are_stimulating].
  split; [reflexivity|]. eexists. split; [reflexivity|]. split.
  - rewrite length_zip_with. lia.
  - intros i want was Hw Ha. rewrite lookup_zip_with, Hw, Ha. cbn.
    destruct want, was; cbn; intuition congruence.
Qed.

(** Asking twice for the same thing: after a tick whose answer has as many
    values as the stored state, a tick with the same answer emits None for
    every channel and leaves the stored state as it is. *)
Theorem stride_repeated_answer_silent :
  forall (self : StrideBasedStimulation) t1 d1 t2 d2,
    let should := wanted percentage_of_stride self t1 d1 in
    let r1 := stimulation_duration percentage_of_stride self t1 d1 in
    let r2 := stimulation_duration percentage_of_stride r1.1 t2 d2 in
    length should = length (size_state (_are_stimulating self) should) ->
    wanted percentage_of_stride self t2 d2 = should ->
    r2.2 = Ok (replicate (length should) None) /\
    _are_stimulating r2.1 = _are_stimulating r1.1.
Proof.
  intros self t1 d1 t2 d2 should r1 r2 Hlen Hsame. subst r2 r1.
  rewrite (stimulation_duration_same_length self t1 d1 Hlen).
  fold should. cbn [fst].
  set (e1 := {| _condition := _condition self; _are_stimulating := should |}).
  assert (Hw : wanted percentage_of_stride e1 t2 d2 = should) by exact Hsame.
  assert (Hlen2 : length (wanted percentage_of_stride e1 t2 d2)
                  = length (size_state (_are_stimulating e1)
                              (wanted percentage_of_stride e1 t2 d2))).
  { rewrite Hw. cbn [e1 _are_stimulating]. rewrite size_state_same.
    reflexivity. }
  rewrite (stimulation_duration_same_length e1 t2 d2 Hlen2).
  rewrite Hw. cbn [fst snd e1 _are_stimulating].
  rewrite size_state_same, table_diagonal. split; reflexivity.
Qed.

(** A failing tick has already written.  With N >= 1 stored values and an
    answer of M > N values, the call raises IndexError, returns no
    command, and the stored state is the first N values of the answer. *)
Theorem stride_index_error_partial_update :
  forall (self : StrideBasedStimulation) t data,
    let should := wanted percentage_of_stride self t data in
    let are := _are_stimulating self in
    let r := stimulation_duration percentage_of_stride self t data in
    (0 < length are < length should)%nat ->
    r.2 = Raise IndexError /\
    _are_stimulating r.1 = take (length are) should.
Proof.
  intros self t data should are r Hlen. subst r.
  rewrite (stimulation_duration_loop Data percentage_of_stride).
  cbn zeta. fold should. cbn [fst snd _are_stimulating].
  assert (Hsz : size_state (_are_stimulating self) should = are).
  { subst are. destruct (_are_stimulating self); [cbn in Hlen; lia|].
    reflexivity. }
  rewrite Hsz. split; [apply channels_loop_raises; lia|].
  destruct (channels_loop_state should (length should) 0%nat are [])
    as (Hl & Hin & _); [lia|].
  apply list_eq. intros i.
  destruct (Nat.lt_ge_cases i (length are)) as [Hi|Hi].
  - rewrite lookup_take_lt by exact Hi.
    destruct (lookup_lt_is_Some_2 should i) as [want Hw]; [lia|].
    rewrite Hw. apply Hin; [lia | exact Hw |].
    apply lookup_lt_is_Some_2. exact Hi.
  - rewrite lookup_take_ge by exact Hi.
    apply lookup_ge_None. lia.
Qed.

End StrideBasedTicks.

(** * More on the event log *)

Section RehastimAdd.

Import Rehastim.

Implicit Types (self : RehastimData) (h : list Channel).

(** The generator of [add] puts one new object per element at the end of
    the store. *)
Lemma copy_channels_spec (channels : list channel_arg) :
  forall h,
    copy_channels h channels
    = (h ++ map arg_channel channels, seq (length h) (length channels)).
Proof.
  induction channels as [|c cs IH]; intros h.
  - cbn. rewrite app_nil_r. reflexivity.
  - cbn [copy_channels].
    assert (E : (match c with
                 | OfPyScienceMode c0 => alloc h (from_pysciencemode c0)
                 | OfChannel c0 => alloc h c0
                 end) = (h ++ [arg_channel c], length h))
      by (destruct c; reflexivity).
    rewrite E, IH. rewrite length_app. cbn [length map seq].
    rewrite <- app_assoc. cbn [app].
    repeat f_equal. lia.
Qed.

(** Writing an amplitude touches one object. *)
Lemma set_amplitude_other h l l' value :
  l <> l' -> set_amplitude h l value !! l' = h !! l'.
Proof.
  intros Hne. unfold set_amplitude. destruct (h !! l); [|reflexivity].
  apply list_lookup_insert_ne. exact Hne.
Qed.

Lemma set_amplitude_length h l value :
  length (set_amplitude h l value) = length h.
Proof.
  unfold set_amplitude. destruct (h !! l); [|reflexivity].
  apply length_insert.
Qed.

(** Entries that do not hold [l] read the same after a write at [l]. *)
Lemma sample_value_set_amplitude h l value (s : Z * option Q * list nat) :
  l ∉ s.2 ->
  sample_value (set_amplitude h l value) s = sample_value h s.
Proof.
  intros Hl. destruct s as [[t d] ls]. unfold sample_value. cbn [fst snd] in *.
  f_equal. apply map_ext_in. intros l' Hin.
  apply set_amplitude_other. intros ->. apply Hl.
  apply list_elem_of_In. exact Hin.
Qed.

(** Entries whose objects are in the store read the same in a longer
    store. *)
Lemma sample_value_app h h' (s : Z * option Q * list nat) :
  Forall (fun l => (l < length h)%nat) s.2 ->
  sample_value (h ++ h') s = sample_value h s.
Proof.
  intros Hs. destruct s as [[t d] ls]. unfold sample_value. cbn [fst snd] in *.
  f_equal. apply map_ext_in. intros l Hin.
  rewrite Forall_forall in Hs.
  apply lookup_app_l. apply Hs. apply list_elem_of_In. exact Hin.
Qed.

(** [add] fails in one case only: no channels given and nothing in the log,
    with RuntimeError and without any change.  In every other case it
    returns, the log has one entry more, the last one, stamped with the
    clock and carrying the duration given, and the entries that were there
    are kept.  The origin time is never changed. *)
Theorem add_outcome :
  forall h self now duration channels,
    let r := add h self now duration channels in
    _t0 r.1.2 = _t0 self /\
    (r.2 <> Ok tt <-> channels = None /\ _data self = []) /\
    (r.2 <> Ok tt ->
       r = (h, self,
            Raise (RuntimeError
              "The first time you add data, you must specify the channels."))) /\
    (r.2 = Ok tt ->
       __len__ r.1.2 = S (__len__ self) /\
       has_data r.1.2 = true /\
       take (__len__ self) (_data r.1.2) = _data self /\
       exists channels',
         last (_data r.1.2) = Some (now, duration, channels')).
Proof.
  intros h self now duration channels r. subst r.
  assert (Hok : forall ch',
    let self' := {| _t0 := _t0 self;
                    _data := _data self ++ [(now, duration, ch')] |} in
    __len__ self' = S (__len__ self) /\
    has_data self' = true /\
    take (__len__ self) (_data self') = _data self /\
    exists channels', last (_data self') = Some (now, duration, channels')).
  { intros ch'. cbn. unfold __len__, has_data. cbn [_data].
    rewrite length_app. cbn [length].
    split; [lia|]. split; [destruct (_data self); reflexivity|].
    split; [rewrite take_app_length; reflexivity|].
    exists ch'. apply last_snoc. }
  destruct channels as [cs|].
  - rewrite add_with_channels. cbn [fst snd].
    split; [reflexivity|]. split; [|split].
    + split; [intros H; exfalso; apply H; reflexivity|].
      intros [H _]. discriminate.
    + intros H. exfalso. apply H. reflexivity.
    + intros _. apply Hok.
  - destruct (last_cases (_data self)) as [E | (init & [[t d] ch] & E & _)].
    + rewrite (add_without_channels_empty _ _ _ _ E). cbn [fst snd].
      split; [reflexivity|]. split; [|split].
      * split; [intros _; split; [reflexivity | exact E] | discriminate].
      * reflexivity.
      * discriminate.
    + rewrite (add_without_channels_shares _ _ _ _ _ _ _ _ E). cbn [fst snd].
      split; [reflexivity|]. split; [|split].
      * split; [intros H; exfalso; apply H; reflexivity|].
        intros [_ H]. rewrite H in E. destruct init; discriminate.
      * intros H. exfalso. apply H. reflexivity.
      * intros _. apply Hok.
Qed.


(** [add] with channels does not share.  In a log whose objects are all in
    the store, after [add] with channels, writing the amplitude of any
    channel of the new entry leaves every earlier entry as it read before
    the call. *)
Theorem add_copies_isolated :
  forall h self now duration channels locs l value,
    let r := add h self now duration (Some channels) in
    well_formed h self ->
    last (_data r.1.2) = Some (now, duration, locs) ->
    l ∈ locs ->
    map (sample_value (set_amplitude r.1.1 l value)) (_data self)
    = map (sample_value h) (_data self).
Proof.
  intros h self now duration channels locs l value r Hwf Hlast Hl.
  subst r. rewrite add_with_channels, copy_channels_spec in *.
  cbn [fst snd _data] in *. rewrite last_snoc in Hlast.
  injection Hlast as <-.
  apply elem_of_seq in Hl.
  apply map_ext_in. intros s Hs.
  unfold well_formed in Hwf. rewrite Forall_forall in Hwf.
  apply list_elem_of_In in Hs. specialize (Hwf s Hs).
  rewrite sample_value_set_amplitude.
  - apply sample_value_app. exact Hwf.
  - intros Hin. rewrite Forall_forall in Hwf. apply Hwf in Hin. lia.
Qed.

End RehastimAdd.

(** A log of one entry, and [add] with a channel of amplitude 30; the new
    channel is the object 1. *)
Lemma add_copies_isolated_witness :
  let h := [Rehastim.mkChannel 1 (10 # 1)%Q] in
  let self := {| Rehastim._t0 := 0;
                 Rehastim._data := [(1000000, Some (1 # 2)%Q, [0%nat])] |} in
  let channels := [Rehastim.OfChannel (Rehastim.mkChannel 2 (30 # 1)%Q)] in
  let r := Rehastim.add h self 2000000 None (Some channels) in
  Rehastim.well_formed h self /\
  last (Rehastim._data r.1.2) = Some (2000000, None, [1%nat]) /\
  1%nat ∈ [1%nat] /\
  map (Rehastim.sample_value (Rehastim.set_amplitude r.1.1 1%nat (99 # 1)%Q))
      (Rehastim._data self)
  = map (Rehastim.sample_value h) (Rehastim._data self).
Proof.
  intros h self channels r.
  assert (Hwf : Rehastim.well_formed h self).
  { unfold Rehastim.well_formed. cbn. repeat constructor. }
  assert (Hin : 1%nat ∈ [1%nat]) by (apply list_elem_of_here).
  split; [exact Hwf|]. split; [reflexivity|]. split; [exact Hin|].
  exact (add_copies_isolated h self 2000000 None channels [1%nat] 1%nat
           (99 # 1)%Q Hwf eq_refl Hin).
Defined.

(** [add] without channels on a log of one entry. *)
Lemma add_outcome_witness :
  let self := {| Rehastim._t0 := 0;
                 Rehastim._data := [(1000000, Some (1 # 2)%Q, [0%nat])] |} in
  let r := Rehastim.add [] self 2000000 None None in
  r.2 = Ok tt /\
  Rehastim.__len__ r.1.2 = 2%nat /\
  Rehastim.has_data r.1.2 = true /\
  take 1 (Rehastim._data r.1.2) = Rehastim._data self /\
  exists channels',
    last (Rehastim._data r.1.2) = Some (2000000, None, channels').
Proof.
  intros self r. split; [reflexivity|].
  destruct (add_outcome [] self 2000000 None None) as (_ & _ & _ & H).
  exact (H eq_refl).
Defined.

Section RehastimInvariants.

Import Rehastim.

Implicit Types (self : RehastimData) (h : list Channel).

Lemma well_formed_longer h h' self :
  well_formed h self -> well_formed (h ++ h') self.
Proof.
  unfold well_formed. intros Hwf.
  eapply Forall_impl; [exact Hwf|]. cbn beta. intros s Hs.
  eapply Forall_impl; [exact Hs|]. cbn beta. intros l Hl.
  rewrite length_app. lia.
Qed.

(** [add] and [stop_undefined_stimulation_duration] keep every location of
    the log in the store. *)
Lemma add_well_formed h self now duration channels h' self' r :
  well_formed h self ->
  add h self now duration channels = (h', self', r) ->
  well_formed h' self'.
Proof.
  intros Hwf Hadd. destruct channels as [cs|].
  - rewrite add_with_channels, copy_channels_spec in Hadd.
    cbn [fst snd] in Hadd. injection Hadd as <- <- <-.
    unfold well_formed. cbn [_data]. apply Forall_app. split.
    + apply (well_formed_longer h _ self Hwf).
    + constructor; [|constructor]. cbn [snd].
      apply Forall_seq. intros j Hj. rewrite length_app, length_map. lia.
  - destruct (last_cases (_data self)) as [E | (init & [[t d] ch] & E & _)].
    + rewrite (add_without_channels_empty _ _ _ _ E) in Hadd.
      injection Hadd as <- <- <-. exact Hwf.
    + rewrite (add_without_channels_shares _ _ _ _ _ _ _ _ E) in Hadd.
      injection Hadd as <- <- <-.
      unfold well_formed in *. cbn [_data]. apply Forall_app.
      split; [exact Hwf|]. constructor; [|constructor]. cbn [snd].
      rewrite E in Hwf. apply Forall_app in Hwf as [_ Hlast].
      apply Forall_cons in Hlast as [Hlast _]. exact Hlast.
Qed.

Lemma stop_undefined_well_formed h self now :
  well_formed h self ->
  well_formed h (stop_undefined_stimulation_duration self now).1.
Proof.
  intros Hwf.
  destruct (stop_undefined_data self now)
    as [Hd | (init & t & d & ch & E & Hd)];
    unfold well_formed in *; rewrite Hd; [exact Hwf|].
  rewrite E in Hwf. apply Forall_app in Hwf as [Hinit Hlast].
  apply Forall_app. split; [exact Hinit|].
  apply Forall_cons in Hlast as [Hlast _].
  constructor; [exact Hlast | constructor].
Qed.

(** For a log whose objects are all in the store, [np.array] is the only
    step of [amplitude_as_array] that can raise. *)
Lemma amplitude_as_array_errors h self e :
  well_formed h self ->
  amplitude_as_array h self = Raise e ->
  e = ValueError "inhomogeneous shape".
Proof.
  intros Hwf. unfold amplitude_as_array.
  destruct (_data self) as [|s0 data0] eqn:E; [discriminate|].
  rewrite <- E. clear E s0 data0.
  destruct (amplitude_rows_closed h (_data self) Hwf) as (rows & -> & _).
  unfold np_array2. destruct rows as [|r rest]; [discriminate|].
  destruct (forallb _ rest); [discriminate|].
  intros H. injection H as <-. reflexivity.
Qed.

(** In every log built from a new one by [add] and
    [stop_undefined_stimulation_duration], each channel of each entry is an
    object of the store; so [amplitude_as_array] finds the amplitude of
    every channel, and the only error it can raise is the ValueError of
    [np.array] for rows of different lengths. *)
Theorem reachable_well_formed :
  forall h self,
    reachable h self ->
    well_formed h self /\
    forall e, amplitude_as_array h self = Raise e ->
              e = ValueError "inhomogeneous shape".
Proof.
  intros h self Hr.
  assert (Hwf : well_formed h self).
  { induction Hr as [h now | h self now d cs h' self' r _ IH Hadd
                    | h self now _ IH].
    - constructor.
    - eapply add_well_formed; eauto.
    - apply stop_undefined_well_formed. exact IH. }
  split; [exact Hwf|]. intros e. apply amplitude_as_array_errors. exact Hwf.
Qed.

(** Stopped entries with different numbers of channels: the rows of the
    amplitude matrix have different lengths and [amplitude_as_array]
    raises the ValueError of [np.array]. *)
Theorem amplitude_as_array_ragged :
  forall h self i j (s1 s2 : Z * option Q * list nat),
    well_formed h self ->
    List.filter is_closed (_data self) !! i = Some s1 ->
    List.filter is_closed (_data self) !! j = Some s2 ->
    length s1.2 <> length s2.2 ->
    amplitude_as_array h self = Raise (ValueError "inhomogeneous shape").
Proof.
  intros h self i j s1 s2 Hwf H1 H2 Hne.
  destruct (amplitude_as_array h self) as [a|e] eqn:Ha.
  - exfalso. unfold amplitude_as_array in Ha.
    destruct (_data self) as [|s0 data0] eqn:E; [discriminate|].
    rewrite <- E in *. clear E s0 data0.
    destruct (amplitude_rows_closed h (_data self) Hwf)
      as (rows & Hrows & Hall).
    rewrite Hrows in Ha.
    destruct (Forall2_lookup_l _ _ _ _ _ Hall H1) as (r1 & Hr1 & Hl1 & _).
    destruct (Forall2_lookup_l _ _ _ _ _ Hall H2) as (r2 & Hr2 & Hl2 & _).
    unfold np_array2 in Ha. destruct rows as [|r rest]; [discriminate|].
    destruct (forallb (fun r' => Nat.eqb (length r') (length r)) rest)
      eqn:Hf; [|discriminate].
    assert (Hsame : forall k x, (r :: rest) !! k = Some x ->
                                length x = length r).
    { intros [|k] x Hx; cbn in Hx; [congruence|].
      rewrite forallb_forall in Hf. apply Nat.eqb_eq. apply Hf.
      apply list_elem_of_In. eapply list_elem_of_lookup_2. exact Hx. }
    apply Hne. rewrite <- Hl1, <- Hl2.
    rewrite (Hsame _ _ Hr1), (Hsame _ _ Hr2). reflexivity.
  - f_equal. eapply amplitude_as_array_errors; eauto.
Qed.

End RehastimInvariants.

(** A log built by two calls of [add]. *)
Lemma reachable_well_formed_witness :
  let s1 := Rehastim.add [] (Rehastim.__init__ 0) 1000000 (Some (1 # 2)%Q)
              (Some [Rehastim.OfChannel (Rehastim.mkChannel 1 (10 # 1)%Q)]) in
  let s2 := Rehastim.add s1.1.1 s1.1.2 2000000 None None in
  Rehastim.reachable s2.1.1 s2.1.2 /\
  Rehastim.well_formed s2.1.1 s2.1.2 /\
  forall e, Rehastim.amplitude_as_array s2.1.1 s2.1.2 = Raise e ->
            e = ValueError "inhomogeneous shape".
Proof.
  intros s1 s2.
  assert (Hr : Rehastim.reachable s2.1.1 s2.1.2).
  { eapply (Rehastim.reachable_add s1.1.1 s1.1.2 2000000 None None);
      [| reflexivity].
    eapply (Rehastim.reachable_add [] (Rehastim.__init__ 0) 1000000
              (Some (1 # 2)%Q)
              (Some [Rehastim.OfChannel (Rehastim.mkChannel 1 (10 # 1)%Q)]));
      [apply Rehastim.reachable_new | reflexivity]. }
  split; [exact Hr|]. exact (reachable_well_formed s2.1.1 s2.1.2 Hr).
Defined.

(** A stopped entry of two channels and a stopped entry of one. *)
Lemma amplitude_as_array_ragged_witness :
  let h := [Rehastim.mkChannel 1 (10 # 1)%Q; Rehastim.mkChannel 2 (20 # 1)%Q] in
  let self := {| Rehastim._t0 := 0;
                 Rehastim._data :=
                   [(1000000, Some (1 # 2)%Q, [0%nat; 1%nat]);
                    (2000000, Some (3 # 10)%Q, [0%nat])] |} in
  Rehastim.well_formed h self /\
  length [0%nat; 1%nat] <> length [0%nat] /\
  Rehastim.amplitude_as_array h self
  = Raise (ValueError "inhomogeneous shape").
Proof.
  intros h self.
  assert (Hwf : Rehastim.well_formed h self).
  { unfold Rehastim.well_formed. cbn. repeat constructor. }
  assert (Hne : length [0%nat; 1%nat] <> length [0%nat]) by (cbn; lia).
  split; [exact Hwf|]. split; [exact Hne|].
  exact (amplitude_as_array_ragged h self 0%nat 1%nat
           (1000000, Some (1 # 2)%Q, [0%nat; 1%nat])
           (2000000, Some (3 # 10)%Q, [0%nat]) Hwf eq_refl eq_refl Hne).
Defined.

Section RehastimClock.

Import Rehastim.

Implicit Types (self : RehastimData) (h : list Channel).

Lemma sorted_snoc (l : list Z) (x : Z) :
  StronglySorted Z.le l -> Forall (fun y => y <= x) l ->
  StronglySorted Z.le (l ++ [x]).
Proof.
  induction 1 as [|y l Hl IH Hy]; intros Hx; cbn.
  - repeat constructor.
  - apply Forall_cons in Hx as [Hyx Hx]. constructor; [apply IH; exact Hx|].
    apply Forall_app. split; [exact Hy|]. repeat constructor. exact Hyx.
Qed.

(** [stop_undefined_stimulation_duration] changes no time. *)
Lemma stop_undefined_stamps self now :
  let self' := (stop_undefined_stimulation_duration self now).1 in
  _t0 self' = _t0 self /\
  map (fun s : Z * option Q * list nat => s.1.1) (_data self')
  = map (fun s : Z * option Q * list nat => s.1.1) (_data self).
Proof.
  cbn zeta.
  destruct (last_cases (_data self)) as [E | (init & [[t d] ch] & E & _)].
  - rewrite (stop_undefined_empty _ _ E). split; reflexivity.
  - destruct d as [d|].
    + rewrite (stop_undefined_closed _ _ _ _ _ _ E). split; reflexivity.
    + rewrite (stop_undefined_open _ _ _ _ _ E). cbn [fst _t0 _data].
      split; [reflexivity|]. rewrite E, !map_app. reflexivity.
Qed.

(** With a clock that never goes back, the times of the entries lie
    between the origin time and the last reading, in increasing order. *)
Lemma reachable_clock_stamps clock h self :
  reachable_clock clock h self ->
  let stamps := map (fun s : Z * option Q * list nat => s.1.1) (_data self) in
  _t0 self <= clock /\
  Forall (fun t => _t0 self <= t <= clock) stamps /\
  StronglySorted Z.le stamps.
Proof.
  induction 1 as [h now | clock h self now d cs h' self' r _ IH Hle Hadd
                 | clock h self now _ IH Hle]; cbn zeta in *.
  - cbn. split; [lia|]. split; constructor.
  - destruct IH as (H0 & Hb & Hs).
    apply add_appends in Hadd as [Ht [[_ [ch' Hd]] | [_ [-> _]]]].
    + rewrite Ht, Hd, map_app. cbn [map fst].
      split; [lia|]. split.
      * apply Forall_app. split.
        -- eapply Forall_impl; [exact Hb|]. cbn beta. lia.
        -- repeat constructor; lia.
      * apply sorted_snoc; [exact Hs|].
        eapply Forall_impl; [exact Hb|]. cbn beta. lia.
    + split; [lia|]. split; [|exact Hs].
      eapply Forall_impl; [exact Hb|]. cbn beta. lia.
  - destruct IH as (H0 & Hb & Hs).
    destruct (stop_undefined_stamps self now) as [-> ->].
    split; [lia|]. split; [|exact Hs].
    eapply Forall_impl; [exact Hb|]. cbn beta. lia.
Qed.

Lemma total_seconds_le (a b : Z) :
  a <= b -> (total_seconds a <= total_seconds b)%Q.
Proof. intros H. unfold total_seconds, Qle. cbn. lia. Qed.

Lemma time_of_closed self :
  elements (time self)
  = map (fun s : Z * option Q * list nat => total_seconds (s.1.1 - _t0 self))
        (List.filter is_closed (_data self)).
Proof. unfold time. destruct (_data self); reflexivity. Qed.

(** The elapsed times of stopped entries, from times in increasing order. *)
Lemma elapsed_sorted (t0 : Z) (data : list (Z * option Q * list nat)) :
  Forall (fun t => t0 <= t)
         (map (fun s : Z * option Q * list nat => s.1.1) data) ->
  StronglySorted Z.le
         (map (fun s : Z * option Q * list nat => s.1.1) data) ->
  let v := map (fun s : Z * option Q * list nat => total_seconds (s.1.1 - t0))
               (List.filter is_closed data) in
  Forall (fun x => (0 <= x)%Q) v /\ StronglySorted Qle v.
Proof.
  induction data as [|s data IH]; cbn zeta; intros Hb Hs.
  - split; constructor.
  - cbn [map] in Hb, Hs. apply Forall_cons in Hb as [Hb0 Hb].
    apply StronglySorted_inv in Hs as [Hs Hall].
    destruct (IH Hb Hs) as [IH1 IH2].
    cbn [List.filter]. destruct (is_closed s); [|split; assumption].
    cbn [map]. split.
    + constructor; [|exact IH1]. apply total_seconds_nonneg. lia.
    + constructor; [exact IH2|].
      apply Forall_forall. intros x Hx.
      apply list_elem_of_In in Hx. apply in_map_iff in Hx as (s' & <- & Hin).
      apply filter_In in Hin as [Hin _].
      apply total_seconds_le.
      rewrite Forall_forall in Hall.
      assert (s.1.1 <= s'.1.1); [|lia].
      apply Hall. apply list_elem_of_In.
      apply in_map_iff. exists s'. split; [reflexivity | exact Hin].
Qed.

(** With a clock that never goes back between the calls, in a log built
    from a new one by [add] and [stop_undefined_stimulation_duration]:
    the times of the entries lie between the origin time and the last
    reading of the clock, in increasing order; the time view is made of
    non-negative numbers in increasing order; and stopping a last entry
    that is not stopped, at a reading that is not earlier, writes a
    duration that is not negative. *)
Theorem clock_order :
  forall clock h self,
    reachable_clock clock h self ->
    let stamps := map (fun s : Z * option Q * list nat => s.1.1) (_data self) in
    Forall (fun t => _t0 self <= t <= clock) stamps /\
    StronglySorted Z.le stamps /\
    Forall (fun x => (0 <= x)%Q) (elements (time self)) /\
    StronglySorted Qle (elements (time self)) /\
    (forall now t channels,
       clock <= now ->
       last (_data self) = Some (t, None, channels) ->
       exists d,
         last (_data (stop_undefined_stimulation_duration self now).1)
         = Some (t, Some d, channels) /\
         (0 <= d)%Q).
Proof.
  intros clock h self Hr stamps.
  destruct (reachable_clock_stamps clock h self Hr) as (H0 & Hb & Hs).
  fold stamps in Hb, Hs.
  split; [exact Hb|]. split; [exact Hs|].
  rewrite time_of_closed.
  destruct (elapsed_sorted (_t0 self) (_data self)) as [Hn Hq].
  { eapply Forall_impl; [exact Hb|]. cbn beta. lia. }
  { exact Hs. }
  split; [exact Hn|]. split; [exact Hq|].
  intros now t ch Hle Hlast.
  apply last_Some in Hlast as [init E].
  rewrite (stop_undefined_open _ _ _ _ _ E). cbn [fst _data].
  exists (total_seconds (now - t)). split; [apply last_snoc|].
  apply total_seconds_nonneg.
  subst stamps. rewrite E, map_app in Hb.
  apply Forall_app in Hb as [_ Hb]. apply Forall_cons in Hb as [Hb _].
  cbn in Hb. lia.
Qed.

End RehastimClock.

(** A log of one entry that is not stopped, recorded at 1 s by a clock that
    read 0 s at the creation; it is stopped at 2.5 s. *)
Lemma clock_order_witness :
  let s1 := Rehastim.add [] (Rehastim.__init__ 0) 1000000 None
              (Some [Rehastim.OfChannel (Rehastim.mkChannel 1 (10 # 1)%Q)]) in
  Rehastim.reachable_clock 1000000 s1.1.1 s1.1.2 /\
  1000000 <= 2500000 /\
  last (Rehastim._data s1.1.2) = Some (1000000, None, [0%nat]) /\
  exists d,
    last (Rehastim._data
            (Rehastim.stop_undefined_stimulation_duration s1.1.2 2500000).1)
    = Some (1000000, Some d, [0%nat]) /\
    (0 <= d)%Q.
Proof.
  intros s1.
  assert (Hr : Rehastim.reachable_clock 1000000 s1.1.1 s1.1.2).
  { eapply (Rehastim.clock_add 0 [] (Rehastim.__init__ 0) 1000000 None
              (Some [Rehastim.OfChannel (Rehastim.mkChannel 1 (10 # 1)%Q)]));
      [apply Rehastim.clock_new | lia | reflexivity]. }
  assert (Hle : 1000000 <= 2500000) by lia.
  split; [exact Hr|]. split; [exact Hle|]. split; [reflexivity|].
  destruct (clock_order 1000000 s1.1.1 s1.1.2 Hr) as (_ & _ & _ & _ & H).
  exact (H 2500000 1000000 [0%nat] Hle eq_refl).
Defined.

Section RehastimCopies.

Import Rehastim.

Implicit Types (self : RehastimData) (h : list Channel).

Lemma closed_relocate n (data : list (Z * option Q * list nat)) :
  List.filter is_closed (map (relocate_sample n) data)
  = map (relocate_sample n) (List.filter is_closed data).
Proof.
  induction data as [|[[t [d|]] ch] data IH]; cbn; [reflexivity | | exact IH].
  f_equal. exact IH.
Qed.

Lemma time_moved h2 self : time (moved h2 self) = time self.
Proof.
  unfold time, moved. cbn [_data _t0].
  destruct (_data self) as [|s data]; [reflexivity|].
  cbn [map]. f_equal. change (relocate_sample (length h2) s
                              :: map (relocate_sample (length h2)) data)
    with (map (relocate_sample (length h2)) (s :: data)).
  rewrite closed_relocate, map_map. reflexivity.
Qed.

Lemma durations_relocate n (data : list (Z * option Q * list nat)) :
  omap (fun s : Z * option Q * list nat => s.1.2)
       (map (relocate_sample n) data)
  = omap (fun s : Z * option Q * list nat => s.1.2) data.
Proof.
  induction data as [|[[t d] ch] data IH]; [reflexivity|].
  cbn. rewrite IH. reflexivity.
Qed.

Lemma duration_moved h2 self :
  duration_as_array (moved h2 self) = duration_as_array self.
Proof.
  unfold duration_as_array, moved. cbn [_data].
  rewrite durations_relocate.
  destruct (_data self); reflexivity.
Qed.

Lemma amplitudes_moved h2 h (channels : list nat) :
  amplitudes (h2 ++ h) (map (Nat.add (length h2)) channels)
  = amplitudes h channels.
Proof.
  unfold amplitudes.
  replace (mapM (fun l => (h2 ++ h) !! l) (map (Nat.add (length h2)) channels))
    with (mapM (fun l => h !! l) channels); [reflexivity|].
  induction channels as [|l ls IH]; [reflexivity|].
  cbn. rewrite lookup_app_r by lia.
  replace (length h2 + l - length h2)%nat with l by lia.
  rewrite IH. reflexivity.
Qed.

Lemma amplitude_rows_moved h2 h (data : list (Z * option Q * list nat)) :
  amplitude_rows (h2 ++ h) (map (relocate_sample (length h2)) data)
  = amplitude_rows h data.
Proof.
  induction data as [|[[t d] ch] data IH]; [reflexivity|].
  cbn [map relocate_sample fst snd amplitude_rows].
  rewrite amplitudes_moved, IH. reflexivity.
Qed.

Lemma amplitude_moved h2 h self :
  amplitude_as_array (h2 ++ h) (moved h2 self) = amplitude_as_array h self.
Proof.
  unfold amplitude_as_array, moved. cbn [_data].
  rewrite amplitude_rows_moved.
  destruct (_data self); reflexivity.
Qed.

Lemma values_moved h2 h self :
  map (sample_value (h2 ++ h)) (_data (moved h2 self))
  = map (sample_value h) (_data self).
Proof.
  unfold moved. cbn [_data]. rewrite map_map. apply map_ext. intros s.
  apply sample_value_relocate.
Qed.

(** The locations of a moved log are after [h2]. *)
Lemma moved_locations h2 self (s : Z * option Q * list nat) l :
  s ∈ _data (moved h2 self) -> l ∈ s.2 -> (length h2 <= l)%nat.
Proof.
  unfold moved. cbn [_data]. intros Hs Hl.
  apply list_elem_of_fmap in Hs as (s0 & -> & _).
  unfold relocate_sample in Hl. cbn [snd] in Hl.
  apply list_elem_of_fmap in Hl as (l0 & -> & _). lia.
Qed.

Lemma copy_moved h self now : copy h self now = (h ++ h, moved h self).
Proof. reflexivity. Qed.

Lemma load_save_moved (fs : gmap string pickled) h self path h2 now :
  load (save fs h self path) h2 now path = (h2 ++ h, Ok (moved h2 self)).
Proof.
  unfold load, save. rewrite lookup_insert_eq.
  unfold pickle_load, pickle_dump. cbn [p_heap p_obj].
  apply f_equal. unfold deserialize, serialized.
  rewrite !lookup_fmap.
  rewrite lookup_insert_eq.
  rewrite lookup_insert_ne by discriminate.
  rewrite lookup_singleton_eq. reflexivity.
Qed.

(** [copy] gives a log with the same origin time, as many entries, reading
    the same, entry by entry, and with the same three views; the origin
    time does not come from the clock. *)
Theorem copy_snapshot :
  forall h self now,
    let r := copy h self now in
    _t0 r.2 = _t0 self /\
    __len__ r.2 = __len__ self /\
    map (sample_value r.1) (_data r.2) = map (sample_value h) (_data self) /\
    time r.2 = time self /\
    duration_as_array r.2 = duration_as_array self /\
    amplitude_as_array r.1 r.2 = amplitude_as_array h self.
Proof.
  intros h self now r. subst r. rewrite copy_moved. cbn [fst snd].
  split; [reflexivity|].
  split; [unfold __len__, moved; cbn [_data]; apply length_map|].
  split; [apply values_moved|].
  split; [apply time_moved|].
  split; [apply duration_moved | apply amplitude_moved].
Qed.

(** The copy and the original share no [Channel].  Writing the amplitude
    of an object that existed before the copy leaves the copy as the
    original read at the copy; and, in a log whose objects are all in the
    store, writing the amplitude of any object made by the copy leaves the
    original as it read. *)
Theorem copy_isolated :
  forall h self now l value,
    let r := copy h self now in
    ((l < length h)%nat ->
     map (sample_value (set_amplitude r.1 l value)) (_data r.2)
     = map (sample_value h) (_data self)) /\
    (well_formed h self -> (length h <= l)%nat ->
     map (sample_value (set_amplitude r.1 l value)) (_data self)
     = map (sample_value h) (_data self)).
Proof.
  intros h self now l value r. subst r. rewrite copy_moved. cbn [fst snd].
  split.
  - intros Hl. rewrite <- (values_moved h h self).
    apply map_ext_in. intros s Hs. apply sample_value_set_amplitude.
    intros Hin. apply list_elem_of_In in Hs.
    pose proof (moved_locations h self s l Hs Hin). lia.
  - intros Hwf Hl. apply map_ext_in. intros s Hs.
    unfold well_formed in Hwf. rewrite Forall_forall in Hwf.
    apply list_elem_of_In in Hs. specialize (Hwf s Hs).
    rewrite sample_value_set_amplitude.
    + apply sample_value_app. exact Hwf.
    + intros Hin. rewrite Forall_forall in Hwf. apply Hwf in Hin. lia.
Qed.

(** The three views of a log read back by [load] from the file that [save]
    wrote are the views of the log that was saved, whatever objects the
    loading side already has; those objects are not changed. *)
Theorem load_views :
  forall (fs : gmap string pickled) h self path h2 now,
    let r := load (save fs h self path) h2 now path in
    exists self',
      r.2 = Ok self' /\
      time self' = time self /\
      duration_as_array self' = duration_as_array self /\
      amplitude_as_array r.1 self' = amplitude_as_array h self /\
      take (length h2) r.1 = h2.
Proof.
  intros fs h self path h2 now r. subst r. rewrite load_save_moved.
  cbn [fst snd]. exists (moved h2 self).
  split; [reflexivity|].
  split; [apply time_moved|].
  split; [apply duration_moved|].
  split; [apply amplitude_moved | apply take_app_length].
Qed.

End RehastimCopies.

(** A copy of a log of one entry, whose object is the object 0; the copy
    holds the object 1. *)
Lemma copy_isolated_witness :
  let h := [Rehastim.mkChannel 1 (10 # 1)%Q] in
  let self := {| Rehastim._t0 := 0;
                 Rehastim._data := [(1000000, Some (1 # 2)%Q, [0%nat])] |} in
  let r := Rehastim.copy h self 5000000 in
  (0 < length h)%nat /\
  Rehastim.well_formed h self /\
  (length h <= 1)%nat /\
  map (Rehastim.sample_value (Rehastim.set_amplitude r.1 0%nat (99 # 1)%Q))
      (Rehastim._data r.2)
  = map (Rehastim.sample_value h) (Rehastim._data self) /\
  map (Rehastim.sample_value (Rehastim.set_amplitude r.1 1%nat (99 # 1)%Q))
      (Rehastim._data self)
  = map (Rehastim.sample_value h) (Rehastim._data self).
Proof.
  intros h self r.
  assert (H0 : (0 < length h)%nat) by (cbn; lia).
  assert (H1 : (length h <= 1)%nat) by (cbn; lia).
  assert (Hwf : Rehastim.well_formed h self).
  { unfold Rehastim.well_formed. cbn. repeat constructor. }
  split; [exact H0|]. split; [exact Hwf|]. split; [exact H1|]. split.
  - exact (proj1 (copy_isolated h self 5000000 0%nat (99 # 1)%Q) H0).
  - exact (proj2 (copy_isolated h self 5000000 1%nat (99 # 1)%Q) Hwf H1).
Defined.

Section RehastimDictionaries.

Import Rehastim.

(** [Channel.deserialize] undoes [Channel.serialized].  It reads the key
    "channel_index" first and then "amplitude", raises KeyError for the
    first of them that is missing, takes nothing else from the dictionary,
    and what it returns serializes to a part of the dictionary. *)
Theorem channel_round_trip :
  (forall c, Channel_deserialize (Channel_serialized c) = Ok c) /\
  (forall data : gmap string pyfield,
     data !! "channel_index"%string = None ->
     Channel_deserialize data = Raise (KeyError "channel_index")) /\
  (forall (data : gmap string pyfield) i,
     data !! "channel_index"%string = Some (PyInt i) ->
     data !! "amplitude"%string = None ->
     Channel_deserialize data = Raise (KeyError "amplitude")) /\
  (forall (data : gmap string pyfield) c,
     Channel_deserialize data = Ok c -> Channel_serialized c ⊆ data) /\
  (forall (data : gmap string pyfield) k v,
     k <> "channel_index"%string -> k <> "amplitude"%string ->
     Channel_deserialize (<[k := v]> data) = Channel_deserialize data).
Proof.
  split; [|split; [|split; [|split]]].
  - intros [i a]. unfold Channel_deserialize, Channel_serialized.
    cbn [channel_index amplitude].
    rewrite lookup_insert_eq.
    rewrite lookup_insert_ne by discriminate.
    rewrite lookup_singleton_eq. reflexivity.
  - intros data H. unfold Channel_deserialize. rewrite H. reflexivity.
  - intros data i Hi Ha. unfold Channel_deserialize. rewrite Hi, Ha.
    reflexivity.
  - intros data c H. unfold Channel_deserialize in H.
    destruct (data !! "channel_index"%string) as [[i|q]|] eqn:Hi;
      try discriminate.
    destruct (data !! "amplitude"%string) as [[z|a]|] eqn:Ha;
      try discriminate.
    injection H as <-. unfold Channel_serialized. cbn [channel_index amplitude].
    apply insert_subseteq_l; [exact Hi|].
    apply map_singleton_subseteq_l. exact Ha.
  - intros data k v H1 H2. unfold Channel_deserialize.
    rewrite !lookup_insert_ne by congruence. reflexivity.
Qed.

(** [RehastimData.deserialize] reads the key "t0" first and then "data",
    raises KeyError for the first of them that is missing, and takes
    nothing else from the dictionary.  The clock that [cls()] reads has no
    effect on the result, and what is returned serializes to a part of the
    dictionary. *)
Theorem deserialize_keys :
  (forall now (data : gmap string pyobj),
     data !! "t0"%string = None ->
     deserialize now data = Raise (KeyError "t0")) /\
  (forall now (data : gmap string pyobj) t,
     data !! "t0"%string = Some (PyDatetime t) ->
     data !! "data"%string = None ->
     deserialize now data = Raise (KeyError "data")) /\
  (forall now1 now2 (data : gmap string pyobj),
     deserialize now1 data = deserialize now2 data) /\
  (forall now (data : gmap string pyobj) self,
     deserialize now data = Ok self -> serialized self ⊆ data) /\
  (forall now (data : gmap string pyobj) k v,
     k <> "t0"%string -> k <> "data"%string ->
     deserialize now (<[k := v]> data) = deserialize now data).
Proof.
  split; [|split; [|split; [|split]]].
  - intros now data H. unfold deserialize. rewrite H. reflexivity.
  - intros now data t Ht Hd. unfold deserialize. rewrite Ht, Hd. reflexivity.
  - intros now1 now2 data. reflexivity.
  - intros now data self H. unfold deserialize in H.
    destruct (data !! "t0"%string) as [[t|d]|] eqn:Ht; try discriminate.
    destruct (data !! "data"%string) as [[t'|d]|] eqn:Hd; try discriminate.
    injection H as <-. unfold serialized. cbn [_t0 _data].
    apply insert_subseteq_l; [exact Ht|].
    apply map_singleton_subseteq_l. exact Hd.
  - intros now data k v H1 H2. unfold deserialize.
    rewrite !lookup_insert_ne by congruence. reflexivity.
Qed.

End RehastimDictionaries.

Section RehastimBlocks.

Import Rehastim.

Implicit Types (self : RehastimData).

Lemma getitem_int_out_of_range {A} (l : list A) i :
  i < - Z.of_nat (length l) \/ Z.of_nat (length l) <= i ->
  getitem_int l i = Raise IndexError.
Proof.
  intros H. unfold getitem_int.
  destruct (Z.ltb_spec i 0).
  - destruct (Z.ltb_spec (i + Z.of_nat (length l)) 0); [reflexivity | lia].
  - destruct (Z.ltb_spec i 0); [lia|].
    destruct (Z.leb_spec (Z.of_nat (length l)) i); [reflexivity | lia].
Qed.

(** An integer index on a log of [n >= 1] entries.  From [-n] to [n - 1]
    it gives the entry at the index, counted from the end when it is
    negative; any other index raises IndexError. *)
Theorem sample_block_index_bounds :
  forall self i,
    let n := Z.of_nat (length (_data self)) in
    (0 < length (_data self))%nat ->
    (- n <= i < n ->
       exists s, sample_block self (Int i) = Ok (Some (One s)) /\
                 _data self !! Z.to_nat (i mod n) = Some s) /\
    (i < - n \/ n <= i -> sample_block self (Int i) = Raise IndexError).
Proof.
  intros self i n Hpos. subst n. unfold sample_block.
  destruct (_data self) as [|s0 data0] eqn:E; [cbn in Hpos; lia|].
  rewrite <- E in *. clear E s0 data0.
  set (n := Z.of_nat (length (_data self))) in *. split.
  - intros Hi. destruct (Z.neg_nonneg_cases i) as [Hneg|Hnn].
    + destruct (lookup_lt_is_Some_2 (_data self) (Z.to_nat (i + n)))
        as [s Hs]; [lia|].
      exists s. pose proof (getitem_int_negative _ _ _ Hs) as Hg.
      rewrite Z2Nat.id in Hg by lia. fold n in Hg.
      replace (i + n - n) with i in Hg by lia. rewrite Hg.
      split; [reflexivity|].
      replace (i mod n) with (i + n); [exact Hs|].
      rewrite <- (Z.mod_small (i + n) n) by lia.
      replace (i + n) with (i + 1 * n) at 1 by lia. apply Z.mod_add. lia.
    + destruct (lookup_lt_is_Some_2 (_data self) (Z.to_nat i))
        as [s Hs]; [lia|].
      exists s. pose proof (getitem_int_nonneg _ _ _ Hs) as Hg.
      rewrite Z2Nat.id in Hg by lia. rewrite Hg.
      split; [reflexivity|]. rewrite Z.mod_small by lia. exact Hs.
  - intros Hi. rewrite getitem_int_out_of_range by exact Hi. reflexivity.
Qed.

(** A slice on a log with entries.  With a step of 0 it raises ValueError.
    With any other step, and any bounds, it returns: the list has the
    number of entries that [slice.indices] gives, at most the length of
    the log, and its k-th element is the entry at [first + k * step], an
    index of the log. *)
Theorem sample_block_slice :
  forall self start stop step,
    let n := Z.of_nat (length (_data self)) in
    (0 < length (_data self))%nat ->
    (step = Some 0 ->
       sample_block self (Slice start stop step)
       = Raise (ValueError "slice step cannot be zero")) /\
    (step <> Some 0 ->
       exists first stride count l,
         slice_indices n start stop step = Ok (first, stride, count) /\
         sample_block self (Slice start stop step) = Ok (Some (Many l)) /\
         length l = count /\
         (count <= length (_data self))%nat /\
         forall k, (k < count)%nat ->
           0 <= first + Z.of_nat k * stride < n /\
           l !! k = _data self !! Z.to_nat (first + Z.of_nat k * stride)).
Proof.
  intros self start stop step n Hpos. subst n. unfold sample_block.
  destruct (_data self) as [|s0 data0] eqn:E; [cbn in Hpos; lia|].
  rewrite <- E in *. clear E s0 data0.
  set (n := Z.of_nat (length (_data self))) in *. split.
  - intros ->. reflexivity.
  - intros Hstep.
    destruct (slice_indices n start stop step) as [[[first stride] count]|e]
      eqn:Hs.
    + destruct (slice_indices_in_range _ _ _ _ _ _ _
                  (Nat2Z.is_nonneg (length (_data self))) Hs)
        as (_ & Hc & Hk).
      destruct (getitem_slice_elements (_data self) _ _ _ _ _ _ Hs)
        as (r & Hr & Hlen & Hget).
      exists first, stride, count, r. rewrite Hr.
      split; [reflexivity|]. split; [reflexivity|]. split; [exact Hlen|].
      split; [lia|]. intros k Hlt. split; [apply Hk; exact Hlt|].
      apply Hget. exact Hlt.
    + exfalso. revert Hs. unfold slice_indices. cbv zeta.
      destruct step as [st|].
      * change (default 1 (Some st)) with st.
        destruct (Z.eqb_spec st 0) as [->|]; [congruence | discriminate].
      * discriminate.
Qed.

(** [sample_block(slice(None, None, -1))], that is [log[::-1]], gives the
    entries of a log with entries in reverse order. *)
Theorem sample_block_reversed :
  forall self,
    (0 < length (_data self))%nat ->
    sample_block self (Slice None None (Some (-1)))
    = Ok (Some (Many (reverse (_data self)))).
Proof.
  intros self Hpos. unfold sample_block.
  destruct (_data self) as [|s0 data0] eqn:E; [cbn in Hpos; lia|].
  rewrite <- E in *. clear E s0 data0.
  set (n := length (_data self)) in *.
  assert (Hs : slice_indices (Z.of_nat n) None None (Some (-1))
               = Ok (Z.of_nat n - 1, -1, n)).
  { unfold slice_indices. change (default 1 (Some (-1))) with (-1).
    cbv zeta.
    change (-1 =? 0) with false. change (-1 <? 0) with true. cbv iota.
    destruct (Z.ltb_spec (-1) (Z.of_nat n - 1)); [|lia].
    change (- -1) with 1. rewrite Z.div_1_r. repeat f_equal. lia. }
  destruct (getitem_slice_elements (_data self) _ _ _ _ _ _ Hs)
    as (r & Hr & Hlen & Hget).
  rewrite Hr. do 3 f_equal.
  apply list_eq. intros k.
  destruct (Nat.lt_ge_cases k n) as [Hk|Hk].
  - rewrite Hget by exact Hk. rewrite reverse_lookup by exact Hk.
    f_equal. fold n. lia.
  - rewrite (proj2 (lookup_ge_None r k)) by lia.
    symmetry. apply lookup_ge_None. rewrite length_reverse. exact Hk.
Qed.

End RehastimBlocks.

Section RehastimViews.

Import Rehastim.

Implicit Types (self : RehastimData) (h : list Channel).

Lemma durations_of_log self :
  elements (duration_as_array self)
  = omap (fun s : Z * option Q * list nat => s.1.2) (_data self).
Proof. unfold duration_as_array. destruct (_data self); reflexivity. Qed.

(** Until it is stopped an entry is in no view; stopping it puts it at the
    end of the time view, with the time elapsed from the origin to its
    recording, and at the end of the duration view, with the duration
    [now - time]. *)
Theorem stop_undefined_enters_views :
  forall self now init t channels,
    let self' := (stop_undefined_stimulation_duration self now).1 in
    _data self = init ++ [(t, None, channels)] ->
    elements (time self)
    = map (fun s : Z * option Q * list nat => total_seconds (s.1.1 - _t0 self))
          (List.filter is_closed init) /\
    elements (time self')
    = elements (time self) ++ [total_seconds (t - _t0 self)] /\
    elements (duration_as_array self')
    = elements (duration_as_array self) ++ [total_seconds (now - t)].
Proof.
  intros self now init t channels self' E. subst self'.
  rewrite (stop_undefined_open _ _ _ _ _ E). cbn [fst].
  rewrite !time_of_closed, !durations_of_log. cbn [_t0 _data].
  rewrite E, !List.filter_app, !omap_app, !map_app. cbn.
  rewrite !app_nil_r. repeat split; reflexivity.
Qed.

(** A successful [add] with a duration puts the new entry at the end of the
    time view and of the duration view; with [duration=None] it changes
    neither. *)
Theorem add_enters_views :
  forall h self now duration channels,
    let r := add h self now duration channels in
    r.2 = Ok tt ->
    elements (duration_as_array r.1.2)
    = elements (duration_as_array self)
      ++ match duration with Some d => [d] | None => [] end /\
    elements (time r.1.2)
    = elements (time self)
      ++ match duration with
         | Some _ => [total_seconds (now - _t0 self)]
         | None => []
         end.
Proof.
  intros h self now duration channels r Hok. subst r.
  destruct (add h self now duration channels) as [[h' self'] r] eqn:Hadd.
  cbn [fst snd] in *.
  apply add_appends in Hadd as [Ht [[_ [ch' Hd]] | [Hr _]]];
    [|congruence].
  rewrite !time_of_closed, !durations_of_log, Ht, Hd.
  rewrite List.filter_app, omap_app, map_app.
  destruct duration as [d|]; cbn; split; reflexivity.
Qed.

(** [set_t0] moves the origin, to the time given or, without one, to the
    clock; it keeps the entries, the duration view and the amplitude view.
    The time view is [total_seconds] of the time elapsed from the origin
    to each stopped entry, and that elapsed time, a timedelta, grows by
    exactly the difference of the two origins. *)
Theorem set_t0_shifts_time :
  forall self new_t0 now,
    let self' := set_t0 self new_t0 now in
    let origin := default now new_t0 in
    let elapsed :=
      map (fun s : Z * option Q * list nat => s.1.1 - _t0 self)
          (List.filter is_closed (_data self)) in
    _t0 self' = origin /\
    _data self' = _data self /\
    duration_as_array self' = duration_as_array self /\
    (forall h, amplitude_as_array h self' = amplitude_as_array h self) /\
    elements (time self) = map total_seconds elapsed /\
    elements (time self')
    = map (fun d => total_seconds (d + (_t0 self - origin))) elapsed.
Proof.
  intros self new_t0 now self' origin elapsed. subst self' origin elapsed.
  split; [destruct new_t0; reflexivity|].
  split; [reflexivity|]. split; [reflexivity|]. split; [reflexivity|].
  rewrite !time_of_closed, !map_map. unfold set_t0. cbn [_t0 _data].
  split; [reflexivity|].
  apply map_ext. intros s. f_equal.
  destruct new_t0; cbn; lia.
Qed.

Lemma amplitude_rows_none h (data : list (Z * option Q * list nat)) :
  List.filter is_closed data = [] -> amplitude_rows h data = Ok [].
Proof.
  induction data as [|[[t [d|]] ch] data IH]; cbn; intros H;
    [reflexivity | discriminate | exact (IH H)].
Qed.

(** The shapes of the views.  On an empty log the time view has shape
    (0,) while the duration view and the amplitude view have shape (1, 0).
    On a log with entries, the time view and the duration view have shape
    (k,), for k stopped entries; and when no entry is stopped the
    amplitude view is the empty array of shape (0,). *)
Theorem views_shapes :
  forall h self,
    let k := length (List.filter is_closed (_data self)) in
    (_data self = [] ->
       shape (time self) = [0%nat] /\
       shape (duration_as_array self) = [1%nat; 0%nat] /\
       exists a, amplitude_as_array h self = Ok a /\
                 shape a = [1%nat; 0%nat]) /\
    ((0 < length (_data self))%nat ->
       shape (time self) = [k] /\
       shape (duration_as_array self) = [k] /\
       (k = 0%nat ->
          exists a, amplitude_as_array h self = Ok a /\ shape a = [0%nat])).
Proof.
  intros h self k. subst k. split.
  - intros E. unfold time, duration_as_array, amplitude_as_array.
    rewrite E. cbn. split; [reflexivity|]. split; [reflexivity|].
    eexists. split; reflexivity.
  - intros Hpos. unfold time, duration_as_array, amplitude_as_array.
    destruct (_data self) as [|s0 data0] eqn:E; [cbn in Hpos; lia|].
    rewrite <- E in *. clear E s0 data0. cbn [shape].
    split; [rewrite length_map; reflexivity|].
    split; [rewrite durations_of_closed; reflexivity|].
    intros Hk. apply length_zero_iff_nil in Hk.
    rewrite (amplitude_rows_none h _ Hk). cbn.
    eexists. split; reflexivity.
Qed.

End RehastimViews.

(** * The further properties on examples *)

(** An engine of two channels, the first stimulating, whose predicate wants
    the second only. *)
Lemma stride_state_follows_answer_witness :
  let self := Stimulation.mkStrideBased (fun _ _ => [false; true])
                [true; false] in
  let r := Stimulation.stimulation_duration (fun t (_ : unit) _ => t)
             self 0%Q tt in
  length [false; true] = length [true; false] /\
  Stimulation._are_stimulating r.1 = [false; true] /\
  exists out,
    r.2 = Ok out /\ length out = 2%nat /\
    forall i want was,
      [false; true] !! i = Some want -> [true; false] !! i = Some was ->
      (out !! i = Some None <-> want = was) /\
      (out !! i = Some (Some 0) <-> want = true /\ was = false) /\
      (out !! i = Some (Some (-1)) <-> want = false /\ was = true).
Proof.
  split; [reflexivity|].
  exact (stride_state_follows_answer unit (fun t _ _ => t)
           (Stimulation.mkStrideBased (fun _ _ => [false; true])
              [true; false]) 0%Q tt eq_refl).
Defined.

(** A new engine of two channels asked twice for the first channel. *)
Lemma stride_repeated_answer_silent_witness :
  let pos := fun (t : Q) (_ : unit) (_ : Stimulation.Side) => t in
  let self := Stimulation.__init__ (fun _ _ => [true; false]) in
  let r1 := Stimulation.stimulation_duration pos self 0%Q tt in
  let r2 := Stimulation.stimulation_duration pos r1.1 1%Q tt in
  Stimulation.wanted pos self 1%Q tt = Stimulation.wanted pos self 0%Q tt /\
  r2.2 = Ok [None; None] /\
  Stimulation._are_stimulating r2.1 = Stimulation._are_stimulating r1.1.
Proof.
  split; [reflexivity|].
  exact (stride_repeated_answer_silent unit (fun t _ _ => t)
           (Stimulation.__init__ (fun _ _ => [true; false]))
           0%Q tt 1%Q tt eq_refl eq_refl).
Defined.

(** One stored value and an answer of three. *)
Lemma stride_index_error_partial_update_witness :
  let self := Stimulation.mkStrideBased (fun _ _ => [true; true; false])
                [false] in
  let r := Stimulation.stimulation_duration (fun t (_ : unit) _ => t)
             self 0%Q tt in
  (0 < 1 < 3)%nat /\
  r.2 = Raise IndexError /\
  Stimulation._are_stimulating r.1 = [true].
Proof.
  split; [lia|].
  apply (stride_index_error_partial_update unit (fun t _ _ => t)
           (Stimulation.mkStrideBased (fun _ _ => [true; true; false])
              [false]) 0%Q tt).
  cbn. lia.
Defined.

(** A dictionary with an amplitude and no index. *)
Lemma channel_round_trip_witness :
  let data : gmap string Rehastim.pyfield :=
    {[ "amplitude"%string := Rehastim.PyFloat (10 # 1)%Q ]} in
  data !! "channel_index"%string = None /\
  Rehastim.Channel_deserialize data = Raise (KeyError "channel_index").
Proof.
  intros data. split; [reflexivity|].
  exact (proj1 (proj2 channel_round_trip) data eq_refl).
Defined.

(** A dictionary with an origin time and no entries. *)
Lemma deserialize_keys_witness :
  let data : gmap string Rehastim.pyobj :=
    {[ "t0"%string := Rehastim.PyDatetime 1000000 ]} in
  data !! "t0"%string = Some (Rehastim.PyDatetime 1000000) /\
  data !! "data"%string = None /\
  Rehastim.deserialize 0 data = Raise (KeyError "data").
Proof.
  intros data. split; [reflexivity|]. split; [reflexivity|].
  exact (proj1 (proj2 deserialize_keys) 0 data 1000000 eq_refl eq_refl).
Defined.

(** A log of two entries read at the indices -2 and 2. *)
Lemma sample_block_index_bounds_witness :
  let self := {| Rehastim._t0 := 0;
                 Rehastim._data :=
                   [(1000000, Some (1 # 2)%Q, [0%nat]);
                    (2000000, None, [0%nat])] |} in
  (0 < length (Rehastim._data self))%nat /\
  (exists s,
     Rehastim.sample_block self (Rehastim.Int (-2))
     = Ok (Some (Rehastim.One s)) /\
     Rehastim._data self !! Z.to_nat (-2 mod 2) = Some s) /\
  Rehastim.sample_block self (Rehastim.Int 2) = Raise IndexError.
Proof.
  intros self.
  assert (Hpos : (0 < length (Rehastim._data self))%nat) by (cbn; lia).
  split; [exact Hpos|]. split.
  - apply (proj1 (sample_block_index_bounds self (-2) Hpos)). cbn. lia.
  - apply (proj2 (sample_block_index_bounds self 2 Hpos)). cbn. lia.
Defined.

(** [log[0:3:2]] on a log of three entries. *)
Lemma sample_block_slice_witness :
  let self := {| Rehastim._t0 := 0;
                 Rehastim._data :=
                   [(1000000, Some (1 # 2)%Q, [0%nat]);
                    (2000000, Some (1 # 2)%Q, [0%nat]);
                    (3000000, None, [0%nat])] |} in
  (0 < length (Rehastim._data self))%nat /\
  Some 2 <> Some 0 /\
  exists first stride count l,
    Rehastim.slice_indices 3 (Some 0) (Some 3) (Some 2)
    = Ok (first, stride, count) /\
    Rehastim.sample_block self (Rehastim.Slice (Some 0) (Some 3) (Some 2))
    = Ok (Some (Rehastim.Many l)) /\
    length l = count /\
    (count <= 3)%nat /\
    forall k, (k < count)%nat ->
      0 <= first + Z.of_nat k * stride < 3 /\
      l !! k = Rehastim._data self !! Z.to_nat (first + Z.of_nat k * stride).
Proof.
  intros self.
  assert (Hpos : (0 < length (Rehastim._data self))%nat) by (cbn; lia).
  assert (Hne : Some 2 <> Some 0) by discriminate.
  split; [exact Hpos|]. split; [exact Hne|].
  exact (proj2 (sample_block_slice self (Some 0) (Some 3) (Some 2) Hpos) Hne).
Defined.

(** [log[::-1]] on a log of two entries. *)
Lemma sample_block_reversed_witness :
  let self := {| Rehastim._t0 := 0;
                 Rehastim._data :=
                   [(1000000, Some (1 # 2)%Q, [0%nat]);
                    (2000000, None, [0%nat])] |} in
  (0 < length (Rehastim._data self))%nat /\
  Rehastim.sample_block self (Rehastim.Slice None None (Some (-1)))
  = Ok (Some (Rehastim.Many (reverse (Rehastim._data self)))).
Proof.
  intros self.
  assert (Hpos : (0 < length (Rehastim._data self))%nat) by (cbn; lia).
  split; [exact Hpos|]. exact (sample_block_reversed self Hpos).
Defined.

(** A stopped entry and an entry recorded at 2 s, stopped at 2.5 s; the
    origin is 0.5 s. *)
Lemma stop_undefined_enters_views_witness :
  let self := {| Rehastim._t0 := 500000;
                 Rehastim._data :=
                   [(1000000, Some (1 # 2)%Q, [0%nat]);
                    (2000000, None, [0%nat])] |} in
  let self' :=
    (Rehastim.stop_undefined_stimulation_duration self 2500000).1 in
  Rehastim._data self
  = [(1000000, Some (1 # 2)%Q, [0%nat])] ++ [(2000000, None, [0%nat])] /\
  Rehastim.elements (Rehastim.time self')
  = Rehastim.elements (Rehastim.time self)
    ++ [Rehastim.total_seconds (2000000 - 500000)] /\
  Rehastim.elements (Rehastim.duration_as_array self')
  = Rehastim.elements (Rehastim.duration_as_array self)
    ++ [Rehastim.total_seconds (2500000 - 2000000)].
Proof.
  intros self self'. split; [reflexivity|].
  exact (proj2 (stop_undefined_enters_views self 2500000
                  [(1000000, Some (1 # 2)%Q, [0%nat])] 2000000 [0%nat]
                  eq_refl)).
Defined.

(** [add] of a stopped entry to an empty log. *)
Lemma add_enters_views_witness :
  let self := Rehastim.__init__ 0 in
  let r := Rehastim.add [] self 1000000 (Some (1 # 2)%Q)
             (Some [Rehastim.OfChannel (Rehastim.mkChannel 1 (10 # 1)%Q)]) in
  r.2 = Ok tt /\
  Rehastim.elements (Rehastim.duration_as_array r.1.2)
  = Rehastim.elements (Rehastim.duration_as_array self) ++ [(1 # 2)%Q] /\
  Rehastim.elements (Rehastim.time r.1.2)
  = Rehastim.elements (Rehastim.time self)
    ++ [Rehastim.total_seconds (1000000 - 0)].
Proof.
  intros self r. split; [reflexivity|].
  exact (add_enters_views [] self 1000000 (Some (1 # 2)%Q)
           (Some [Rehastim.OfChannel (Rehastim.mkChannel 1 (10 # 1)%Q)])
           eq_refl).
Defined.

(** A log whose only entry is not stopped. *)
Lemma views_shapes_witness :
  let self := {| Rehastim._t0 := 0;
                 Rehastim._data := [(1000000, None, [0%nat])] |} in
  (0 < length (Rehastim._data self))%nat /\
  Rehastim.shape (Rehastim.time self) = [0%nat] /\
  Rehastim.shape (Rehastim.duration_as_array self) = [0%nat] /\
  exists a, Rehastim.amplitude_as_array [] self = Ok a /\
            Rehastim.shape a = [0%nat].
Proof.
  intros self.
  assert (Hpos : (0 < length (Rehastim._data self))%nat) by (cbn; lia).
  split; [exact Hpos|].
  destruct (proj2 (views_shapes [] self) Hpos) as (H1 & H2 & H3).
  split; [exact H1|]. split; [exact H2|]. exact (H3 eq_refl).
Defined.
